(** * SidekickAI: the change manager and the provider router

  A shallow embedding of [src/utils/fileWriter.ts] (class [FileWriter]) and
  of [src/ai/aiService.ts] (class [AIService]), with the properties of the
  specification stated over it.

  Conventions of the embedding.
  - A JavaScript string is the list of its UTF-16 code units ([list N]);
    [.length] is [length].
  - A JavaScript number that the code computes with fractions
    (the confidence score, the 30% threshold) is a binary64 float
    ([PrimFloat]); counters and lengths are [nat].
  - Objects that the code shares and mutates ([FileChange]) live in a heap
    and are named by references; the two collections of the writer hold
    references, as the arrays of the source do.
  - The editor's file system, the clock, the random generator and the HTTP
    transport are collaborators outside the repository: the file system is
    a finite map from paths to contents in which any call may be made to
    fail, the others are oracles.
  - Calls of the logger have no influence on any value or state of the two
    classes and are left out. *)

From Stdlib Require Import PrimFloat Uint63 ZArith NArith Ascii String.
From Stdlib Require Import DecimalString DecimalN DecimalPos.
From stdpp Require Import gmap list fin_maps.

Set Warnings "-inexact-float".
Set Default Proof Using "Type".

(* ===================================================================== *)
(** ** JavaScript strings *)
(* ===================================================================== *)

Module Js.

Abbreviation JsString := (list N).

(** A literal: the code units of an ASCII text. *)
Definition js (s : string) : JsString := N_of_ascii <$> list_ascii_of_string s.
Arguments js : simpl never.

(** The newline and the backtick. *)
Definition LF : N := 10%N.
Definition BACKTICK : N := 96%N.

(** [WhiteSpace] and [LineTerminator] of ECMAScript: what [\s] matches and
    what [String.prototype.trim] removes. *)
Definition isWhiteSpace (c : N) : bool :=
  ((9 <=? c) && (c <=? 13) || (c =? 32) || (c =? 160) || (c =? 5760)
   || (8192 <=? c) && (c <=? 8202) || (c =? 8232) || (c =? 8233)
   || (c =? 8239) || (c =? 8287) || (c =? 12288) || (c =? 65279))%N.

(** [\w]: ASCII letters, digits and the underscore. *)
Definition isWordChar (c : N) : bool :=
  ((48 <=? c) && (c <=? 57) || (65 <=? c) && (c <=? 90) || (c =? 95)
   || (97 <=? c) && (c <=? 122))%N.

(** [.] without the [s] flag: anything but a line terminator. *)
Definition isLineTerminator (c : N) : bool :=
  ((c =? 10) || (c =? 13) || (c =? 8232) || (c =? 8233))%N.

Fixpoint trimStart (s : JsString) : JsString :=
  match s with
  | c :: s' => if isWhiteSpace c then trimStart s' else s
  | [] => []
  end.

Definition trimEnd (s : JsString) : JsString := reverse (trimStart (reverse s)).

Definition trim (s : JsString) : JsString := trimEnd (trimStart s).

Fixpoint startsWith (p s : JsString) : bool :=
  match p, s with
  | [], _ => true
  | a :: p', b :: s' => (a =? b)%N && startsWith p' s'
  | _ :: _, [] => false
  end.

(** [s.includes(p)] *)
Fixpoint includes (p s : JsString) : bool :=
  startsWith p s || match s with [] => false | _ :: s' => includes p s' end.

(** [s.split(sep)] for a separator of one code unit. *)
Fixpoint split (sep : N) (s : JsString) : list JsString :=
  match s with
  | [] => [[]]
  | c :: s' =>
      if (c =? sep)%N then [] :: split sep s'
      else match split sep s' with
           | l :: ls => (c :: l) :: ls
           | [] => [[c]]
           end
  end.

(** [a.join(sep)] *)
Fixpoint join (sep : JsString) (ls : list JsString) : JsString :=
  match ls with
  | [] => []
  | [l] => l
  | l :: ls' => l ++ sep ++ join sep ls'
  end.

(** The surrogate code units of UTF-16. *)
Definition isHighSurrogate (c : N) : bool := ((55296 <=? c) && (c <=? 56319))%N.
Definition isLowSurrogate (c : N) : bool := ((56320 <=? c) && (c <=? 57343))%N.

(** The replacement character U+FFFD. *)
Definition REPLACEMENT : N := 65533%N.

(** [s.toWellFormed()], the conversion of a string to scalar values that
    [TextEncoder.encode] makes and that every decoder of bytes ends in: a
    surrogate that is not part of a pair becomes U+FFFD. *)
Fixpoint toWellFormed (s : JsString) : JsString :=
  match s with
  | [] => []
  | c :: s' =>
      if isHighSurrogate c then
        match s' with
        | d :: s'' =>
            if isLowSurrogate d then c :: d :: toWellFormed s''
            else REPLACEMENT :: toWellFormed s'
        | [] => [REPLACEMENT]
        end
      else if isLowSurrogate c then REPLACEMENT :: toWellFormed s'
      else c :: toWellFormed s'
  end.

(** The decimal text of a non-negative integer, as template literals
    print it. *)
Definition decimal (n : N) : JsString := js (NilZero.string_of_uint (N.to_uint n)).

(** [reduce] without an initial value; [None] stands for the [TypeError]
    on an empty array. *)
Definition reduce {A} (f : A → A → A) (l : list A) : option A :=
  match l with
  | [] => None
  | x :: l' => Some (foldl f x l')
  end.

End Js.

(* ===================================================================== *)
(** ** Regular expressions *)
(* ===================================================================== *)

(** The regular expressions of [aiService.ts] use character classes, greedy
  and lazy repetition of a class, options, one capture group and the
  multi-line end anchor.  The matcher is the backtracking matcher of
  ECMAScript for that fragment, in continuation-passing style: a
  continuation receives the rest of the input and the capture. *)

Module Regex.
Import Js.

Inductive regex : Type :=
| RChar (p : N → bool)            (* one code unit of a class *)
| RSeq (r1 r2 : regex)            (* r1 r2 *)
| RStar (p : N → bool)            (* [p]* , greedy *)
| RLazy (p : N → bool)            (* [p]*? , lazy *)
| ROpt (r : regex)                (* r? , greedy *)
| RGroup (r : regex)              (* ( r ) , the capture group *)
| REol                            (* $ with the m flag *)
| REps.                           (* the empty regex *)

Definition lit (c : N) : regex := RChar (N.eqb c).
Definition anyChar : N → bool := λ _, true.

(** A sequence of regexes, and a literal text. *)
Definition seq (rs : list regex) : regex := foldr RSeq REps rs.
Definition text (s : JsString) : regex := seq (lit <$> s).

(** [p]+ *)
Definition plus (p : N → bool) : regex := RSeq (RChar p) (RStar p).

Section Matcher.
Context {R : Type}.

Fixpoint starGreedy (p : N → bool) (s : JsString) (k : JsString → option R)
  : option R :=
  match s with
  | c :: s' =>
      if p c then
        match starGreedy p s' k with
        | Some r => Some r
        | None => k s
        end
      else k s
  | [] => k s
  end.

Fixpoint starLazy (p : N → bool) (s : JsString) (k : JsString → option R)
  : option R :=
  match k s with
  | Some r => Some r
  | None =>
      match s with
      | c :: s' => if p c then starLazy p s' k else None
      | [] => None
      end
  end.

Fixpoint rmatch (r : regex) (s : JsString) (cap : option JsString)
    (k : JsString → option JsString → option R) : option R :=
  match r with
  | RChar p =>
      match s with
      | c :: s' => if p c then k s' cap else None
      | [] => None
      end
  | RSeq r1 r2 => rmatch r1 s cap (λ s1 cap1, rmatch r2 s1 cap1 k)
  | RStar p => starGreedy p s (λ s1, k s1 cap)
  | RLazy p => starLazy p s (λ s1, k s1 cap)
  | ROpt r1 =>
      match rmatch r1 s cap k with
      | Some res => Some res
      | None => k s cap
      end
  | RGroup r1 =>
      rmatch r1 s cap (λ s1 _, k s1 (Some (take (length s - length s1) s)))
  | REol =>
      match s with
      | [] => k s cap
      | c :: _ => if isLineTerminator c then k s cap else None
      end
  | REps => k s cap
  end.
End Matcher.

(** One attempt at the head of [s]: the length of the match and the text of
    the capture group ([None] when the group took no part). *)
Definition matchHere (r : regex) (s : JsString) : option (nat * option JsString) :=
  rmatch r s None (λ rest cap, Some (length s - length rest, cap)).

(** [r.test(s)]: a match at some position. *)
Fixpoint test (r : regex) (s : JsString) : bool :=
  match matchHere r s with
  | Some _ => true
  | None => match s with [] => false | _ :: s' => test r s' end
  end.

(** The loop [while ((m = r.exec(s)) !== null)] of a [g] regex that matches
    no empty text: the captures of the successive matches, from left to
    right, each search resuming where the previous match ended.  [skip]
    counts the code units still covered by the last match. *)
Fixpoint execLoop (r : regex) (s : JsString) (skip : nat) : list (option JsString) :=
  match s with
  | [] => []
  | _ :: s' =>
      match skip with
      | S n => execLoop r s' n
      | O =>
          match matchHere r s with
          | Some (len, cap) => cap :: execLoop r s' (len - 1)
          | None => execLoop r s' 0
          end
      end
  end.

(** [s.replace(r, '')] for a [g] regex that matches no empty text. *)
Fixpoint remove (r : regex) (s : JsString) (skip : nat) : JsString :=
  match s with
  | [] => []
  | c :: s' =>
      match skip with
      | S n => remove r s' n
      | O =>
          match matchHere r s with
          | Some (len, _) => remove r s' (len - 1)
          | None => c :: remove r s' 0
          end
      end
  end.

End Regex.

(* ===================================================================== *)
(** ** The provider router: [src/ai/aiService.ts] *)
(* ===================================================================== *)

Module AiService.
Import Js Regex.
Local Open Scope float_scope.

(** [AIRequestType] *)
Inductive AIRequestType : Set := write | modify | explain | generate.

#[global] Instance AIRequestType_eq_dec : EqDecision AIRequestType.
Proof. solve_decision. Defined.

(** The provider metadata handed to the parser, a [Record<string, unknown>]:
    the two entries the code consults.  [None] is an entry that is absent or
    is no string. *)
Record Metadata : Type := mkMetadata {
  finishReason : option JsString;
  stopReason : option JsString
}.

(** [AICodeResponse], without the fields the service never fills. *)
Record AICodeResponse : Type := mkResponse {
  code : JsString;
  explanation : option JsString;
  confidence : float;
  metadata : option Metadata
}.

(** [Math.max] and [Math.min] on numbers that are not NaN. *)
Definition Math_max (a b : float) : float := if a <? b then b else a.
Definition Math_min (a b : float) : float := if b <? a then b else a.

(** A length or a counter as a number. *)
Definition number (n : nat) : float := PrimFloat.of_uint63 (Uint63.of_Z (Z.of_nat n)).

(** [x === 'text'] for an entry of the metadata. *)
Definition isText (entry : option JsString) (s : string) : bool :=
  bool_decide (entry = Some (js s)).

Definition fence : JsString := [BACKTICK; BACKTICK; BACKTICK].

(** [calculateConfidence], lines 706-732. *)
Definition calculateConfidence (content : JsString) (type : AIRequestType)
    (metadata : option Metadata) : float :=
  let confidence := 0.7 in
  let confidence := if (100 <? length content)%nat then confidence + 0.1 else confidence in
  let confidence := if (500 <? length content)%nat then confidence + 0.1 else confidence in
  let confidence :=
    if bool_decide (type = explain) && (200 <? length content)%nat
    then confidence + 0.1 else confidence in
  let confidence :=
    if bool_decide (type ≠ explain) && includes fence content
    then confidence + 0.1 else confidence in
  let confidence :=
    match metadata with
    | Some metadata =>
        let confidence :=
          if isText (finishReason metadata) "stop" || isText (stopReason metadata) "end_turn"
          then confidence + 0.1 else confidence in
        if isText (finishReason metadata) "length" || isText (stopReason metadata) "max_tokens"
        then confidence - 0.2 else confidence
    | None => confidence
    end in
  Math_min (Math_max confidence 0.1) 1.0.

(** [/```[\w]*\n?([\s\S]*?)\n?```/g] *)
Definition codeBlockRegex : regex :=
  seq [text fence; RStar isWordChar; ROpt (lit LF); RGroup (RLazy anyChar);
       ROpt (lit LF); text fence].

(** The eleven [codeIndicators] of [detectCodeContent]. *)
Definition notLineTerminator (c : N) : bool := negb (isLineTerminator c).

Definition codeIndicators : list regex :=
  [ seq [text (js "function"); plus isWhiteSpace; plus isWordChar];
    seq [text (js "const"); plus isWhiteSpace; plus isWordChar; RStar isWhiteSpace;
         text (js "=")];
    seq [text (js "let"); plus isWhiteSpace; plus isWordChar; RStar isWhiteSpace;
         text (js "=")];
    seq [text (js "var"); plus isWhiteSpace; plus isWordChar; RStar isWhiteSpace;
         text (js "=")];
    seq [text (js "class"); plus isWhiteSpace; plus isWordChar];
    seq [text (js "import"); plus isWhiteSpace; RStar notLineTerminator;
         text (js "from")];
    seq [text (js "export"); plus isWhiteSpace;
         ROpt (RGroup (seq [text (js "default"); plus isWhiteSpace]))];
    seq [text (js "{"); RStar anyChar; text (js "}")];
    seq [text (js ";"); REol];
    seq [text (js "/*"); RLazy anyChar; text (js "*/")];
    seq [text (js "//"); RStar notLineTerminator; REol] ].

(** [detectCodeContent], lines 680-701. *)
Definition detectCodeContent (content : JsString) : bool :=
  let lines := split LF content in
  let codeLines :=
    List.filter (λ line, existsb (λ pattern, test pattern line) codeIndicators) lines in
  number (length lines) * 0.3 <? number (length codeLines).

(** The callback of [codeBlocks.reduce]. *)
Definition longer (prev current : JsString) : JsString :=
  if (length prev <? length current)%nat then current else prev.

(** The array [codeBlocks] after the [exec] loop: [match[1].trim()] of every
    match.  The group of [codeBlockRegex] takes part in every match. *)
Definition codeBlocksOf (content : JsString) : list JsString :=
  (λ m : option JsString, trim (default [] m)) <$> execLoop codeBlockRegex content 0.

(** [parseAIResponse], lines 619-675. *)
Definition parseAIResponse (content : JsString) (type : AIRequestType)
    (metadata : option Metadata) : AICodeResponse :=
  let '(code, explanation) :=
    if bool_decide (type = explain) then ([], Some (trim content))
    else
      let codeBlocks := codeBlocksOf content in
      match reduce longer codeBlocks with
      | Some code =>
          let explanationText := trim (remove codeBlockRegex content 0) in
          (code, if explanationText is [] then None else Some explanationText)
      | None =>
          if detectCodeContent content then (trim content, None)
          else ([], Some (trim content))
      end in
  mkResponse code explanation (calculateConfidence content type metadata) metadata.

(** *** The scoring rule in the words of the specification *)

(** What the rule looks at: the length of the text, whether the request is
    an explanation, whether the text contains a fenced-block marker, and
    whether the provider reported a natural stop or a truncation by length. *)
Record Signals : Type := mkSignals {
  sg_length : nat;
  sg_explain : bool;
  sg_fenced : bool;
  sg_naturalStop : bool;
  sg_truncated : bool
}.

Definition addIf (condition : bool) (delta score : float) : float :=
  if condition then score + delta else score.

Definition subtractIf (condition : bool) (delta score : float) : float :=
  if condition then score - delta else score.

Definition clamp (low high x : float) : float :=
  if x <? low then low else if high <? x then high else x.

(** Start at 0.7; add 0.1 for more than 100 characters; add 0.1 for more
    than 500; add 0.1 for an explanation of more than 200; add 0.1 for a
    text that is no explanation and has a fenced-block marker; add 0.1 for
    a natural stop; subtract 0.2 for a truncation; clamp into [0.1, 1.0]. *)
Definition referenceConfidence (g : Signals) : float :=
  let score := 0.7 in
  let score := addIf (100 <? sg_length g)%nat 0.1 score in
  let score := addIf (500 <? sg_length g)%nat 0.1 score in
  let score := addIf (sg_explain g && (200 <? sg_length g)%nat) 0.1 score in
  let score := addIf (negb (sg_explain g) && sg_fenced g) 0.1 score in
  let score := addIf (sg_naturalStop g) 0.1 score in
  let score := subtractIf (sg_truncated g) 0.2 score in
  clamp 0.1 1.0 score.

(** The finish reasons by which the providers report a natural stop
    ([finish_reason] of the chat completions, [stop_reason] of the messages
    interface) and a truncation by length. *)
Definition reportsNaturalStop (metadata : option Metadata) : bool :=
  match metadata with
  | Some m => isText (finishReason m) "stop" || isText (stopReason m) "end_turn"
  | None => false
  end.

Definition reportsTruncation (metadata : option Metadata) : bool :=
  match metadata with
  | Some m => isText (finishReason m) "length" || isText (stopReason m) "max_tokens"
  | None => false
  end.

Definition signalsOf (content : JsString) (type : AIRequestType)
    (metadata : option Metadata) : Signals :=
  mkSignals (length content) (bool_decide (type = explain)) (includes fence content)
            (reportsNaturalStop metadata) (reportsTruncation metadata).

(** The text of scenario D of the specification. *)
Definition scenarioD : JsString :=
  fence ++ js "ts" ++ [LF] ++ js "const a=1;" ++ [LF] ++ fence ++ [LF]
  ++ js "Explanation text".



(** *** Dispatch and the mapping of transport failures *)

(** [AIProvider]; the configured value is read from the settings, so the
    [default] branch of the dispatch can be reached by a text outside the
    enumeration. *)
Inductive AIProvider : Set := OPENAI | CLAUDE | OLLAMA | LMSTUDIO | VLLM.

Inductive ProviderValue : Type :=
| Known (p : AIProvider)
| Unrecognized (value : JsString).

(** [EnhancedAIRequest].  The prompt texts only reach the transport. *)
Record EnhancedAIRequest : Type := mkRequest {
  prompt : JsString;
  context : option JsString;
  type : AIRequestType;
  filePath : option JsString;
  selection : option JsString;
  language : option JsString
}.

(** What [axios.isAxiosError] recognises: [error.message], [error.code] and
    [error.response?.status]. *)
Record AxiosError : Type := mkAxiosError {
  ax_message : JsString;
  ax_code : option JsString;
  ax_status : option N
}.

(** A thrown value. *)
Inductive Thrown : Type :=
| ThrownError (message : JsString)     (* an [Error] that axios does not know *)
| ThrownAxios (e : AxiosError)         (* an [Error] that axios recognises *)
| ThrownValue.                         (* a value that is no [Error] *)

(** [error instanceof Error ? error.message : 'Unknown error'] *)
Definition errorMessage (error : Thrown) : JsString :=
  match error with
  | ThrownError message => message
  | ThrownAxios e => ax_message e
  | ThrownValue => js "Unknown error"
  end.

(** What [await this.httpClient.post(url, payload)] and the reading of
    [response.data] come to: the text of the envelope (with [|| ''] applied)
    and its two reason fields, or a [TypeError] when the envelope lacks the
    array the handler indexes, or a rejection of the transport. *)
Inductive Outcome : Type :=
| Envelope (content : JsString) (finish_reason stop_reason : option JsString)
| Malformed (typeError : JsString)
| Rejected (error : Thrown).

Definition Result (A : Type) : Type := Thrown + A.

(** The [try] block of a handler up to the call of the parser. *)
Definition received (o : Outcome) (type : AIRequestType)
    (meta : option JsString → option JsString → Metadata) : Result AICodeResponse :=
  match o with
  | Envelope content finish_reason stop_reason =>
      inr (parseAIResponse content type (Some (meta finish_reason stop_reason)))
  | Malformed typeError => inl (ThrownError typeError)
  | Rejected error => inl error
  end.

Definition statusIs (e : AxiosError) (n : N) : bool := bool_decide (ax_status e = Some n).
Definition codeIs (e : AxiosError) (s : string) : bool := bool_decide (ax_code e = Some (js s)).

(** [handleOpenAIRequest], lines 198-240. *)
Definition handleOpenAIRequest (request : EnhancedAIRequest) (o : Outcome)
  : Result AICodeResponse :=
  match received o (type request) (λ finish _, mkMetadata finish None) with
  | inr response => inr response
  | inl error =>
      match error with
      | ThrownAxios e =>
          if statusIs e 401 then inl (ThrownError (js "OpenAI API key is invalid or expired"))
          else if statusIs e 429 then inl (ThrownError (js "OpenAI API rate limit exceeded"))
          else if statusIs e 402 then inl (ThrownError (js "OpenAI API quota exceeded"))
          else inl error
      | _ => inl error
      end
  end.

(** [handleClaudeRequest], lines 245-284. *)
Definition handleClaudeRequest (request : EnhancedAIRequest) (o : Outcome)
  : Result AICodeResponse :=
  match received o (type request) (λ _ stop, mkMetadata None stop) with
  | inr response => inr response
  | inl error =>
      match error with
      | ThrownAxios e =>
          if statusIs e 401 then inl (ThrownError (js "Claude API key is invalid or expired"))
          else if statusIs e 429 then inl (ThrownError (js "Claude API rate limit exceeded"))
          else inl error
      | _ => inl error
      end
  end.

(** [handleOllamaRequest], lines 289-335; [model] is [this.config.model]. *)
Definition handleOllamaRequest (model : JsString) (request : EnhancedAIRequest)
    (o : Outcome) : Result AICodeResponse :=
  match received o (type request) (λ _ _, mkMetadata None None) with
  | inr response => inr response
  | inl error =>
      match error with
      | ThrownAxios e =>
          if codeIs e "ECONNREFUSED" then
            inl (ThrownError
                   (js "Ollama server is not running. Please start Ollama and try again."))
          else if statusIs e 404 then
            inl (ThrownError
                   (js "Ollama model '" ++ model ++ js "' not found. Please pull the model first."))
          else inl error
      | _ => inl error
      end
  end.

(** [handleLMStudioRequest], lines 340-381. *)
Definition handleLMStudioRequest (request : EnhancedAIRequest) (o : Outcome)
  : Result AICodeResponse :=
  match received o (type request) (λ _ _, mkMetadata None None) with
  | inr response => inr response
  | inl error =>
      match error with
      | ThrownAxios e =>
          if codeIs e "ECONNREFUSED" then
            inl (ThrownError
                   (js "LM Studio server is not running. Please start LM Studio and load a model."))
          else inl error
      | _ => inl error
      end
  end.

(** [handleVLLMRequest], lines 386-426. *)
Definition handleVLLMRequest (request : EnhancedAIRequest) (o : Outcome)
  : Result AICodeResponse :=
  match received o (type request) (λ _ _, mkMetadata None None) with
  | inr response => inr response
  | inl error =>
      match error with
      | ThrownAxios e =>
          if codeIs e "ECONNREFUSED" then
            inl (ThrownError
                   (js "vLLM server is not running. Please start the vLLM server."))
          else inl error
      | _ => inl error
      end
  end.

(** [sendRequest], lines 113-176: the dispatch on [this.currentProvider] and
    the [catch] that wraps every failure. *)
Definition sendRequest (currentProvider : ProviderValue) (model : JsString)
    (request : EnhancedAIRequest) (o : Outcome) : Result AICodeResponse :=
  let attempt :=
    match currentProvider with
    | Known OPENAI => handleOpenAIRequest request o
    | Known CLAUDE => handleClaudeRequest request o
    | Known OLLAMA => handleOllamaRequest model request o
    | Known LMSTUDIO => handleLMStudioRequest request o
    | Known VLLM => handleVLLMRequest request o
    | Unrecognized value => inl (ThrownError (js "Unsupported AI provider: " ++ value))
    end in
  match attempt with
  | inr response => inr response
  | inl error => inl (ThrownError (js "AI request failed: " ++ errorMessage error))
  end.

End AiService.

(* ===================================================================== *)
(** ** Replies made of text and fenced blocks *)
(* ===================================================================== *)

Module Fenced.
Import Js Regex AiService.









End Fenced.

(* ===================================================================== *)
(** ** The change manager: [src/utils/fileWriter.ts] *)
(* ===================================================================== *)

Module FileWriter.
Import Js.

Inductive EditType : Set := CREATE | REPLACE | INSERT | MODIFY | DELETE.
Inductive ChangeStatus : Set := PENDING | APPLIED | FAILED | CANCELLED.
Inductive CommandType : Set := AI_GENERATED | USER_REQUESTED | REFACTOR | FIX | ENHANCEMENT.

#[global] Instance EditType_eq_dec : EqDecision EditType.
Proof. solve_decision. Defined.
#[global] Instance ChangeStatus_eq_dec : EqDecision ChangeStatus.
Proof. solve_decision. Defined.

(** [FileChange] *)
Record FileChange : Type := mkChange {
  id : JsString;
  filePath : JsString;
  originalContent : JsString;
  newContent : JsString;
  changeType : EditType;
  description : JsString;
  timestamp : N;
  status : ChangeStatus;
  commandType : CommandType;
  reasoning : option JsString
}.

(** [change.status = st], the only assignment to a field of a change. *)
Definition withStatus (st : ChangeStatus) (c : FileChange) : FileChange :=
  mkChange (id c) (filePath c) (originalContent c) (newContent c) (changeType c)
           (description c) (timestamp c) st (commandType c) (reasoning c).

(** [FileEditRequest], without the editor positions that staging ignores. *)
Record FileEditRequest : Type := mkEditRequest {
  r_filePath : JsString;
  r_editType : EditType;
  r_newContent : JsString;
  r_originalContent : option JsString;
  r_description : JsString;
  r_reasoning : option JsString;
  r_commandType : CommandType
}.

(** [ChangePreview], without its two display texts ([title], [preview]). *)
Record ChangePreview : Type := mkPreview {
  p_id : JsString;
  p_description : JsString;
  p_filePath : JsString;
  p_changeType : EditType;
  isDestructive : bool;
  canUndo : bool
}.

(** The result of [applyAllChanges]. *)
Record Tally : Type := mkTally { successful : nat; failed : nat }.

(** *** The collaborators *)

(** What lies outside the program.  Every call of a collaborator is counted;
    the oracles say what the call with a given number meets. *)
Record Env : Type := mkEnv {
  fault : nat → option JsString;   (* the file-system call fails, with this message *)
  now : nat → N;                   (* the clock: [Date.now()] *)
  random : nat → N                 (* [Math.random() * 1000], rounded down *)
}.

(** References to the [FileChange] objects of the heap. *)
Abbreviation ref := nat.

(** The heap of changes, the two private arrays of the writer (they hold
    references), the files of the workspace and the number of collaborator
    calls made so far.  [maxHistorySize] is never assigned after
    construction. *)
Record State : Type := mkState {
  heap : list FileChange;
  changeHistory : list ref;
  pendingChanges : list ref;
  files : gmap JsString JsString;
  calls : nat
}.

Definition maxHistorySize : nat := 100.

(** [new FileWriter(logger)] in a workspace. *)
Definition initial (workspace : gmap JsString JsString) : State :=
  mkState [] [] [] workspace 0.

Definition setHeap (h : list FileChange) (s : State) : State :=
  mkState h (changeHistory s) (pendingChanges s) (files s) (calls s).
Definition setHistory (l : list ref) (s : State) : State :=
  mkState (heap s) l (pendingChanges s) (files s) (calls s).
Definition setPending (l : list ref) (s : State) : State :=
  mkState (heap s) (changeHistory s) l (files s) (calls s).
Definition setFiles (f : gmap JsString JsString) (s : State) : State :=
  mkState (heap s) (changeHistory s) (pendingChanges s) f (calls s).
Definition setCalls (n : nat) (s : State) : State :=
  mkState (heap s) (changeHistory s) (pendingChanges s) (files s) n.

(** *** Computations: state and exceptions *)

(** An [async] method either returns or throws; the effects made before a
    [throw] stay. *)
Inductive Completion (A : Type) : Type :=
| Return (a : A)
| Throw (message : JsString).
Arguments Return {A} a.
Arguments Throw {A} message.

Definition M (A : Type) : Type := State → Completion A * State.

#[global] Instance M_ret : MRet M := λ A a s, (Return a, s).
#[global] Instance M_bind : MBind M := λ A B f m s,
  match m s with
  | (Return a, s') => f a s'
  | (Throw e, s') => (Throw e, s')
  end.

Definition throw {A} (message : JsString) : M A := λ s, (Throw message, s).

(** [try { body } catch (error) { handler }] *)
Definition tryCatch {A} (body : M A) (handler : JsString → M A) : M A := λ s,
  match body s with
  | (Return a, s') => (Return a, s')
  | (Throw e, s') => handler e s'
  end.

Definition get : M State := λ s, (Return s, s).
Definition update (f : State → State) : M unit := λ s, (Return (), f s).

Section Collaborators.
Context (env : Env).

(** The number of this call. *)
Definition tick : M nat := λ s, (Return (calls s), setCalls (S (calls s)) s).

(** [Date.now()], also behind [new Date()]. *)
Definition Date_now : M N := n ← tick; mret (now env n).

(** [Math.floor(Math.random() * 1000)] *)
Definition Math_random_1000 : M N := n ← tick; mret (random env n `mod` 1000)%N.

(** [(await vscode.workspace.openTextDocument(vscode.Uri.file(path))).getText()].
    A file holds the text that its bytes encode; the text of a document is
    decoded from bytes, so it has no lone surrogate. *)
Definition openTextDocument (path : JsString) : M JsString :=
  n ← tick;
  match fault env n with
  | Some e => throw e
  | None =>
      s ← get;
      match files s !! path with
      | Some content => mret (toWellFormed content)
      | None => throw (js "FileNotFound")
      end
  end.

(** [vscode.workspace.fs.createDirectory] for the directory of a file.
    Directories are not part of the model: the call succeeds unless it is
    made to fail. *)
Definition fs_createDirectory (ofFile : JsString) : M unit :=
  n ← tick;
  match fault env n with
  | Some e => throw e
  | None => mret ()
  end.

(** [vscode.workspace.fs.writeFile] *)
Definition fs_writeFile (path content : JsString) : M unit :=
  n ← tick;
  match fault env n with
  | Some e => throw e
  | None => update (λ s, setFiles (<[path := content]> (files s)) s)
  end.

(** [vscode.workspace.fs.delete] *)
Definition fs_delete (path : JsString) : M unit :=
  n ← tick;
  match fault env n with
  | Some e => throw e
  | None =>
      s ← get;
      match files s !! path with
      | Some _ => update (λ s, setFiles (delete path (files s)) s)
      | None => throw (js "FileNotFound")
      end
  end.

(** *** The private helpers *)

(** [generateChangeId], lines 1261-1263. *)
Definition generateChangeId : M JsString :=
  t ← Date_now;
  r ← Math_random_1000;
  mret (js "change_" ++ decimal t ++ js "_" ++ decimal r).

(** An object literal of type [FileChange]: a new object of the heap. *)
Definition new (c : FileChange) : M ref := λ s,
  (Return (length (heap s)), setHeap (heap s ++ [c]) s).

(** [this.pendingChanges.push(change)] *)
Definition pendingChanges_push (change : ref) : M unit :=
  update (λ s, setPending (pendingChanges s ++ [change]) s).

(** Reading a field through a reference.  A reference held by the writer
    always names an object of the heap; elsewhere the read throws, as a
    property read on [undefined] does. *)
Definition deref (change : ref) : M FileChange := λ s,
  match heap s !! change with
  | Some object => (Return object, s)
  | None => (Throw (js "TypeError"), s)
  end.

(** [change.status = st] *)
Definition setStatus (change : ref) (st : ChangeStatus) : M unit :=
  update (λ s, setHeap (alter (withStatus st) change (heap s)) s).

(** [c.id === changeId] for a reference of one of the arrays. *)
Definition hasId (h : list FileChange) (changeId : JsString) (r : ref) : Prop :=
  id <$> h !! r = Some changeId.

#[global] Instance hasId_dec h changeId r : Decision (hasId h changeId r).
Proof. unfold hasId. apply _. Defined.

(** [array.findIndex(c => c.id === changeId)] together with
    [array.find(c => c.id === changeId)]: the first position whose change has
    the id, and the reference there. *)
Definition find (h : list FileChange) (array : list ref) (changeId : JsString)
  : option (nat * ref) :=
  list_find (hasId h changeId) array.

(** [new TextEncoder().encode(content)], as the text that the bytes encode:
    UTF-8 cannot encode a lone surrogate, and the encoder puts U+FFFD in its
    place. *)
Definition TextEncoder_encode (content : JsString) : JsString := toWellFormed content.

(** [writeFileContent], lines 1215-1225. *)
Definition writeFileContent (filePath content : JsString) : M unit :=
  fs_createDirectory filePath;;
  fs_writeFile filePath (TextEncoder_encode content).

(** [deleteFilePhysically], lines 1230-1239. *)
Definition deleteFilePhysically (filePath : JsString) : M bool :=
  tryCatch (fs_delete filePath;; mret true) (λ _, mret false).

(** The insertion point of an [INSERT]: the first blank line, else line 0. *)
Definition insertLine (lines : list JsString) : nat :=
  match list_find (λ line, trim line = []) lines with
  | Some (i, _) => i
  | None => 0
  end.

(** [executeChange], lines 1160-1210; [change] is the object read through
    its reference.  [vscode.Uri.file], evaluated before the [try], builds a
    value and does not throw. *)
Definition executeChange (change : FileChange) : M bool :=
  tryCatch
    (match changeType change with
     | CREATE => writeFileContent (filePath change) (newContent change)
     | MODIFY | REPLACE => writeFileContent (filePath change) (newContent change)
     | DELETE => _ ← deleteFilePhysically (filePath change); mret ()
     | INSERT =>
         tryCatch
           (originalContent ← openTextDocument (filePath change);
            let lines := split LF originalContent in
            let i := insertLine lines in
            let lines := take i lines ++ [newContent change] ++ drop i lines in
            writeFileContent (filePath change) (join [LF] lines))
           (λ _, writeFileContent (filePath change) (newContent change))
     end;;
     mret true)
    (λ _, mret false).

(** [moveToHistory], lines 1244-1256. *)
Definition moveToHistory (change : ref) : M unit :=
  object ← deref change;
  update (λ s,
    match find (heap s) (pendingChanges s) (id object) with
    | Some (index, _) => setPending (delete index (pendingChanges s)) s
    | None => s
    end);;
  update (λ s, setHistory (changeHistory s ++ [change]) s);;
  update (λ s,
    if decide (maxHistorySize < length (changeHistory s))
    then setHistory (drop (length (changeHistory s) - maxHistorySize) (changeHistory s)) s
    else s).

(** The common part of [modifyFile], [deleteFile] and [createChange]: the
    original content, or the empty text when it cannot be read. *)
Definition readOriginal (filePath : JsString) : M JsString :=
  tryCatch (openTextDocument filePath) (λ _, mret []).

(** *** The public operations *)

(** [createFile], lines 335-359.  The result is the reference to the new
    change. *)
Definition createFile (filePath content description : JsString)
    (commandType : CommandType) (reasoning : option JsString) : M ref :=
  id ← generateChangeId;
  timestamp ← Date_now;
  change ← new (mkChange id filePath [] content CREATE description timestamp
                          PENDING commandType reasoning);
  pendingChanges_push change;;
  mret change.

(** [modifyFile], lines 364-397. *)
Definition modifyFile (filePath newContent description : JsString)
    (commandType : CommandType) (reasoning : option JsString) : M ref :=
  originalContent ← readOriginal filePath;
  id ← generateChangeId;
  timestamp ← Date_now;
  change ← new (mkChange id filePath originalContent newContent MODIFY description
                          timestamp PENDING commandType reasoning);
  pendingChanges_push change;;
  mret change.

(** [deleteFile], lines 402-434. *)
Definition deleteFile (filePath description : JsString)
    (commandType : CommandType) (reasoning : option JsString) : M ref :=
  originalContent ← readOriginal filePath;
  id ← generateChangeId;
  timestamp ← Date_now;
  change ← new (mkChange id filePath originalContent [] DELETE description
                          timestamp PENDING commandType reasoning);
  pendingChanges_push change;;
  mret change.

(** [createChange], lines 439-468, the staging step of
    [applyAIGeneratedCode]. *)
Definition createChange (request : FileEditRequest) : M ref :=
  originalContent ←
    (if decide (r_editType request ≠ CREATE) then readOriginal (r_filePath request)
     else mret []);
  id ← generateChangeId;
  timestamp ← Date_now;
  let original :=
    match r_originalContent request with
    | Some (c :: o) => c :: o
    | _ => originalContent
    end in
  change ← new (mkChange id (r_filePath request) original (r_newContent request)
                          (r_editType request) (r_description request) timestamp
                          PENDING (r_commandType request) (r_reasoning request));
  pendingChanges_push change;;
  mret change.

(** The message of the error of [applyChange]. *)
Definition notFound (changeId : JsString) : JsString := js "Change not found: " ++ changeId.

(** [applyChange], lines 473-514. *)
Definition applyChange (changeId : JsString) (dryRun : bool) : M bool :=
  s ← get;
  match find (heap s) (pendingChanges s) changeId with
  | None => throw (notFound changeId)
  | Some (_, change) =>
      if dryRun then mret true
      else
        tryCatch
          (object ← deref change;
           success ← executeChange object;
           (if success : bool then
              setStatus change APPLIED;;
              moveToHistory change
            else setStatus change FAILED);;
           mret success)
          (λ _, setStatus change FAILED;; mret false)
  end.

(** The body of the loop of [applyAllChanges]. *)
Definition applyOne (change : ref) (dryRun : bool) (t : Tally) : M Tally :=
  tryCatch
    (object ← deref change;
     success ← applyChange (id object) dryRun;
     mret (if success : bool then mkTally (S (successful t)) (failed t)
           else mkTally (successful t) (S (failed t))))
    (λ _, mret (mkTally (successful t) (S (failed t)))).

Fixpoint applyEach (changes : list ref) (dryRun : bool) (t : Tally) : M Tally :=
  match changes with
  | [] => mret t
  | change :: changes' => t' ← applyOne change dryRun t; applyEach changes' dryRun t'
  end.

(** [applyAllChanges], lines 519-540. *)
Definition applyAllChanges (dryRun : bool) : M Tally :=
  s ← get;
  let changes := pendingChanges s in
  applyEach changes dryRun (mkTally 0 0).

(** [cancelChange], lines 545-557. *)
Definition cancelChange (changeId : JsString) : M bool :=
  s ← get;
  match find (heap s) (pendingChanges s) changeId with
  | None => mret false
  | Some (index, change) =>
      setStatus change CANCELLED;;
      update (λ s, setPending (delete index (pendingChanges s)) s);;
      mret true
  end.

(** [clearPendingChanges], lines 562-571. *)
Definition clearPendingChanges : M nat :=
  s ← get;
  let count := length (pendingChanges s) in
  update (λ s, setHeap (foldl (λ h change, alter (withStatus CANCELLED) change h)
                              (heap s) (pendingChanges s)) s);;
  update (setPending []);;
  mret count.

(** [isDestructiveChange], lines 1344-1360.  Halving a length is exact in
    binary floating point, so [newLength < originalLength * 0.5] is
    [2 * newLength < originalLength]. *)
Definition isDestructiveChange (editType : EditType)
    (originalContent newContent : JsString) : bool :=
  if decide (editType = DELETE) then true
  else if decide (editType = MODIFY ∨ editType = REPLACE) then
    let originalLength := length originalContent in
    let newLength := length newContent in
    (0 <? originalLength) && (2 * newLength <? originalLength)
  else false.

(** [getChangePreview], lines 576-595; a pure reading of the state. *)
Definition getChangePreview (s : State) (changeId : JsString) : option ChangePreview :=
  match find (heap s) (pendingChanges s) changeId with
  | None => None
  | Some (_, r) =>
      change ← heap s !! r;
      let isDestructive :=
        bool_decide (changeType change = DELETE)
        || bool_decide (changeType change = MODIFY)
           && (length (newContent change) * 2 <? length (originalContent change)) in
      Some (mkPreview (id change) (description change) (filePath change)
                      (changeType change) isDestructive
                      (bool_decide (changeType change ≠ CREATE)))
  end.

(** [undoChange], lines 614-652.  The method is declared to return a
    boolean, but in the [MODIFY] and [DELETE] cases [success] receives the
    value of [await this.writeFileContent(...)], which is [undefined]:
    [None] stands for it. *)
Definition undoChange (changeId : JsString) : M (option bool) :=
  s ← get;
  match find (heap s) (changeHistory s) changeId with
  | None => mret (Some false)
  | Some (_, r) =>
      change ← deref r;
      if decide (status change ≠ APPLIED) then mret (Some false)
      else
        tryCatch
          (match changeType change with
           | CREATE =>
               success ← deleteFilePhysically (filePath change);
               mret (Some success)
           | MODIFY =>
               writeFileContent (filePath change) (originalContent change);;
               mret None
           | DELETE =>
               writeFileContent (filePath change) (originalContent change);;
               mret None
           | _ => mret (Some false)
           end)
          (λ _, mret (Some false))
  end.

(** *** Sequences of calls *)

(** A call of a public operation by a client of the writer. *)
Inductive Call : Type :=
| CreateFile (filePath content description : JsString)
    (commandType : CommandType) (reasoning : option JsString)
| ModifyFile (filePath newContent description : JsString)
    (commandType : CommandType) (reasoning : option JsString)
| DeleteFile (filePath description : JsString)
    (commandType : CommandType) (reasoning : option JsString)
| CreateChange (request : FileEditRequest)
| ApplyChange (changeId : JsString) (dryRun : bool)
| ApplyAllChanges (dryRun : bool)
| CancelChange (changeId : JsString)
| ClearPendingChanges
| UndoChange (changeId : JsString).

(** The state after a call, whether it returned or threw. *)
Definition after (c : Call) (s : State) : State :=
  match c with
  | CreateFile p c d t r => (createFile p c d t r s).2
  | ModifyFile p c d t r => (modifyFile p c d t r s).2
  | DeleteFile p d t r => (deleteFile p d t r s).2
  | CreateChange request => (createChange request s).2
  | ApplyChange changeId dryRun => (applyChange changeId dryRun s).2
  | ApplyAllChanges dryRun => (applyAllChanges dryRun s).2
  | CancelChange changeId => (cancelChange changeId s).2
  | ClearPendingChanges => (clearPendingChanges s).2
  | UndoChange changeId => (undoChange changeId s).2
  end.

Definition run (cs : list Call) (s : State) : State := foldl (λ s c, after c s) s cs.

End Collaborators.

(** *** Notions used to state the properties *)

(** The part of the state that belongs to the writer. *)
Definition manager (s : State) : list FileChange * list ref * list ref :=
  (heap s, changeHistory s, pendingChanges s).

(** The history after its trimming to [maxHistorySize]. *)
Definition trimHistory (l : list ref) : list ref :=
  if decide (maxHistorySize < length l) then drop (length l - maxHistorySize) l else l.

(** The state in which [applyChange] leaves the writer when the change at
    position [index] of the pending array, named by [change], has been
    executed with success. *)
Definition applied (index : nat) (change : ref) (s : State) : State :=
  mkState (alter (withStatus APPLIED) change (heap s))
          (trimHistory (changeHistory s ++ [change]))
          (delete index (pendingChanges s))
          (files s) (calls s).

(** The state in which it leaves the writer when the execution failed. *)
Definition failedAt (change : ref) (s : State) : State :=
  setHeap (alter (withStatus FAILED) change (heap s)) s.

(** The id that [generateChangeId] makes when it starts at call [n]. *)
Definition changeIdAt (env : Env) (n : nat) : JsString :=
  js "change_" ++ decimal (now env n) ++ js "_" ++ decimal (random env (S n) `mod` 1000)%N.

(** What reading the document at [path] gives in [s]: [None] when the read
    throws, because the call is made to fail or because there is no file. *)
Definition readableAt (env : Env) (s : State) (path : JsString) : option JsString :=
  match fault env (calls s) with
  | Some _ => None
  | None => toWellFormed <$> files s !! path
  end.

(** The state after the staging of the new change [c], when [n] calls of
    the collaborators have been made. *)
Definition staged (s : State) (c : FileChange) (n : nat) : State :=
  mkState (heap s ++ [c]) (changeHistory s) (pendingChanges s ++ [length (heap s)])
          (files s) n.

(** A computation that touches only the collaborators: it leaves the heap
    and the two arrays as they are. *)
Definition external {A} (m : M A) : Prop := ∀ s, manager (m s).2 = manager s.

(** A computation that never throws. *)
Definition total {A} (m : M A) : Prop := ∀ s, ∃ a, (m s).1 = Return a.

(** A computation after which no fewer calls of the collaborators have been
    counted than before. *)
Definition advancing {A} (m : M A) : Prop := ∀ s, calls s ≤ calls (m s).2.

(** The generator of ids never makes the same id twice. *)
Definition distinctIds (env : Env) : Prop :=
  ∀ m n, changeIdAt env m = changeIdAt env n → m = n.

(** Every change carries an id that was generated at an earlier call, and no
    two changes carry the same id. *)
Record Ids (env : Env) (s : State) : Prop := mkIds {
  ids_generated : ∀ r c, heap s !! r = Some c →
    ∃ n, n < calls s ∧ id c = changeIdAt env n;
  ids_distinct : ∀ r r' c c', heap s !! r = Some c → heap s !! r' = Some c' →
    id c = id c' → r = r'
}.

(** The invariant of the two collections that the code maintains. *)
Record Inv (s : State) : Prop := mkInv {
  inv_pending_nodup : NoDup (pendingChanges s);
  inv_history_nodup : NoDup (changeHistory s);
  inv_pending_status : ∀ r, r ∈ pendingChanges s →
    ∃ c, heap s !! r = Some c ∧ (status c = PENDING ∨ status c = FAILED);
  inv_history_status : ∀ r, r ∈ changeHistory s →
    ∃ c, heap s !! r = Some c ∧ status c = APPLIED;
  inv_pending_complete : ∀ r c, heap s !! r = Some c → status c = PENDING →
    r ∈ pendingChanges s;
  inv_applied : ∀ r c, heap s !! r = Some c → status c = APPLIED →
    r ∈ changeHistory s ∨ length (changeHistory s) = maxHistorySize;
  inv_history_bound : length (changeHistory s) ≤ maxHistorySize
}.



(** No other pending change has the id of the change [r]. *)
Definition idUniqueInPending (s : State) (r : ref) : Prop :=
  ∀ r' c c', heap s !! r = Some c → heap s !! r' = Some c' →
    r' ∈ pendingChanges s → id c' = id c → r' = r.

(** The pending changes have ids that differ from one another. *)
Definition pendingIdsDistinct (s : State) : Prop :=
  ∀ r r' c c', r ∈ pendingChanges s → r' ∈ pendingChanges s →
    heap s !! r = Some c → heap s !! r' = Some c' → id c = id c' → r = r'.

(** The id [changeId] is carried by no change of the two collections. *)
Definition freshId (s : State) (changeId : JsString) : Prop :=
  ∀ r, r ∈ pendingChanges s ++ changeHistory s → ¬ hasId (heap s) changeId r.

(** *** Environments and inputs of the examples *)

(** A clock and a generator that follow the number of the call, and a file
    system that fails at the calls of a list. *)
Definition failingAt (ns : list nat) : Env :=
  mkEnv (λ n, if decide (n ∈ ns) then Some (js "EIO") else None)
        (λ n, N.of_nat n) (λ n, N.of_nat n).

Definition reliable : Env := failingAt [].

(** The next [k] calls of the file system, from call [n] on, do not fail. *)
Definition unhindered (env : Env) (n k : nat) : Prop :=
  ∀ j, j < k → fault env (n + j) = None.

(** A file is created, and the write of its application fails. *)
Definition failedCreation : list Call :=
  [CreateFile (js "/t/a.ts") (js "const x=1;") (js "desc") AI_GENERATED None;
   ApplyChange (changeIdAt (failingAt [4]) 0) false].

(** A file is created and the change is applied. *)
Definition appliedCreation : list Call :=
  [CreateFile (js "/t/a.ts") (js "const x=1;") (js "desc") AI_GENERATED None;
   ApplyChange (changeIdAt reliable 0) false].

(** Scenario C of the specification: three pending changes; the write of
    the second one is call 12 of the collaborators. *)
Definition threeCreations : list Call :=
  [CreateFile (js "/t/a.ts") (js "A") (js "first") AI_GENERATED None;
   CreateFile (js "/t/b.ts") (js "B") (js "second") AI_GENERATED None;
   CreateFile (js "/t/c.ts") (js "C") (js "third") AI_GENERATED None].

(** The outcome of scenario C as the specification states it: two
    successes and one failure, no pending change left, one record of the
    history with the status [FAILED]. *)
Definition statedScenarioC (result : Completion Tally) (s : State) : Prop :=
  result = Return (mkTally 2 1)
  ∧ pendingChanges s = []
  ∧ length (List.filter (λ r, bool_decide (status <$> heap s !! r = Some FAILED))
                        (changeHistory s)) = 1.

(** The round trip of a creation as the specification states it: after
    [createFile], a successful [applyChange] and [undoChange], there is no
    file at the path. *)
Definition statedCreateRoundTrip (env : Env) (s : State) (filePath content : JsString)
  : Prop :=
  ∀ description commandType reasoning change c s1 s2,
    createFile env filePath content description commandType reasoning s
    = (Return change, s1) →
    heap s1 !! change = Some c →
    applyChange env (id c) false s1 = (Return true, s2) →
    files (undoChange env (id c) s2).2 !! filePath = None.

(** A clock that stands still and a generator that repeats its draw, as
    within one millisecond: every id that is generated is the same. *)
Definition colliding (ns : list nat) : Env :=
  mkEnv (λ n, if decide (n ∈ ns) then Some (js "EIO") else None) (λ _, 0%N) (λ _, 0%N).

(** Two files are created, and their changes get the same id. *)
Definition collidingCreations : list Call :=
  [CreateFile (js "/t/a.ts") (js "A") (js "first") AI_GENERATED None;
   CreateFile (js "/t/b.ts") (js "B") (js "second") AI_GENERATED None].

(** C10 as the specification states it: a call of [applyChange] with the
    id of a change that has been applied or cancelled throws the error of
    an unknown id and changes nothing. *)
Definition statedAfterResolution (env : Env) (s : State) : Prop :=
  ∀ r c dryRun,
    heap s !! r = Some c →
    status c = APPLIED ∨ status c = CANCELLED →
    applyChange env (id c) dryRun s = (Throw (notFound (id c)), s).

(** A workspace with one file, and its modification. *)
Definition oneFile : gmap JsString JsString := {[ js "/t/a.ts" := js "old" ]}.

Definition appliedModification : list Call :=
  [ModifyFile (js "/t/a.ts") (js "new") (js "desc") AI_GENERATED None;
   ApplyChange (changeIdAt reliable 1) false].

(** A replacement that keeps two of ten characters, staged through
    [createChange]. *)
Definition shortening : FileEditRequest :=
  mkEditRequest (js "/t/a.ts") REPLACE (js "ab") (Some (js "abcdefghij"))
                (js "shorten") None AI_GENERATED.

End FileWriter.

(* ===================================================================== *)
(** ** The rest of the provider router *)
(* ===================================================================== *)

Module AiServiceRest.
Import Js Regex AiService.

(** A string that is set and not empty: what [if (x)] and [x || y] test. *)
Definition truthy (x : option JsString) : option JsString :=
  match x with
  | Some (c :: s) => Some (c :: s)
  | _ => None
  end.

(** [x || y] for two strings. *)
Definition orElse (x y : JsString) : JsString := if x is [] then y else x.

(** [ProviderCapabilities] *)
Record ProviderCapabilities : Type := mkCapabilities {
  supportsStreaming : bool;
  supportsCodeGeneration : bool;
  supportsCodeExplanation : bool;
  supportsFileModification : bool;
  maxContextLength : N;
  requiresApiKey : bool
}.

(** [getProviderCapabilities], lines 431-476: the table, read at the current
    provider; a value outside the enumeration finds no entry. *)
Definition getProviderCapabilities (currentProvider : ProviderValue)
  : option ProviderCapabilities :=
  match currentProvider with
  | Known OPENAI => Some (mkCapabilities true true true true 16000 true)
  | Known CLAUDE => Some (mkCapabilities true true true true 100000 true)
  | Known OLLAMA => Some (mkCapabilities true true true true 4000 false)
  | Known LMSTUDIO => Some (mkCapabilities false true true true 4000 false)
  | Known VLLM => Some (mkCapabilities false true true true 4000 false)
  | Unrecognized _ => None
  end.

(** The configuration of the transport client: the timeout and the headers,
    in the order of their assignment. *)
Record ClientConfig : Type := mkClientConfig {
  timeout : N;
  headers : list (JsString * JsString)
}.

(** [createHttpClient], lines 504-522, up to [axios.create]. *)
Definition createHttpClient (currentProvider : ProviderValue) (apiKey : option JsString)
    (timeout : N) : ClientConfig :=
  let headers :=
    [(js "Content-Type", js "application/json");
     (js "User-Agent", js "Sidekick-AI-VSCode/1.0.0")] in
  let headers :=
    match currentProvider, truthy apiKey with
    | Known OPENAI, Some key => headers ++ [(js "Authorization", js "Bearer " ++ key)]
    | Known CLAUDE, Some key =>
        headers ++ [(js "x-api-key", key); (js "anthropic-version", js "2023-06-01")]
    | _, _ => headers
    end in
  mkClientConfig timeout headers.

(** The request of [testConnection]. *)
Definition testRequest : EnhancedAIRequest :=
  mkRequest (js "Test connection - respond with " ++ [34%N] ++ js "OK" ++ [34%N])
            None explain None None None.

Section Platform.
(** [String.prototype.toLowerCase], a function of the platform. *)
Context (toLowerCase : JsString → JsString).

(** [testConnection], lines 481-499. *)
Definition testConnection (currentProvider : ProviderValue) (model : JsString)
    (o : Outcome) : bool :=
  match sendRequest currentProvider model testRequest o with
  | inr response =>
      let responseText := orElse (code response) (default [] (explanation response)) in
      includes (js "ok") (toLowerCase responseText)
  | inl _ => false
  end.

End Platform.

(** [CommandType] of [src/types], the tag of a legacy request. *)
Inductive CommandType : Set :=
| WRITE_CODE | MODIFY_FILE | EXPLAIN_CODE | GENERATE_FUNCTION | CUSTOM.

(** [AIRequest], the legacy request. *)
Record AIRequest : Type := mkLegacyRequest {
  l_prompt : JsString;
  l_context : option JsString;
  l_filePath : option JsString;
  l_selection : option JsString;
  l_commandType : CommandType
}.

(** [AIResponse], the legacy response, without the fields that the service
    leaves undefined. *)
Record AIResponse : Type := mkLegacyResponse {
  l_content : JsString;
  l_confidence : float;
  l_metadata : option Metadata;
  l_explanation : option JsString
}.

(** [convertLegacyRequest], lines 737-765 (and its copy, lines 771-799). *)
Definition convertLegacyRequest (request : AIRequest) : EnhancedAIRequest :=
  let type :=
    match l_commandType request with
    | WRITE_CODE => write
    | MODIFY_FILE => modify
    | GENERATE_FUNCTION => generate
    | EXPLAIN_CODE => explain
    | CUSTOM => write
    end in
  mkRequest (l_prompt request) (l_context request) type (l_filePath request)
            (l_selection request) None.

(** [sendLegacyRequest], lines 181-193. *)
Definition sendLegacyRequest (currentProvider : ProviderValue) (model : JsString)
    (request : AIRequest) (o : Outcome) : Result AIResponse :=
  match sendRequest currentProvider model (convertLegacyRequest request) o with
  | inl error => inl error
  | inr response =>
      inr (mkLegacyResponse
             (orElse (code response) (default [] (explanation response)))
             (confidence response) (metadata response) (explanation response))
  end.

End AiServiceRest.

(* ===================================================================== *)
(** ** The rest of the change manager *)
(* ===================================================================== *)

Module FileWriterRest.
Import Js FileWriter.

(** [array.slice(start)] for an integer [start]. *)
Definition slice {A} (start : Z) (l : list A) : list A :=
  let len := Z.of_nat (length l) in
  let k := if (start <? 0)%Z then Z.max (len + start) 0 else Z.min start len in
  drop (Z.to_nat k) l.

(** [getPendingChanges], lines 600-602: a copy of the array. *)
Definition getPendingChanges (s : State) : list ref := pendingChanges s.

(** [getChangeHistory], lines 607-609, for an integer [limit]. *)
Definition getChangeHistory (s : State) (limit : Z) : list ref :=
  slice (- limit) (changeHistory s).

(** [ValidationResult] *)
Record ValidationResult : Type := mkValidation {
  isValid : bool;
  errors : list JsString;
  warnings : list JsString
}.

(** [validateFileChange], lines 708-742.  For a [MODIFY] the code calls
    [vscode.workspace.fs.stat] inside a [try] without awaiting the promise
    it returns, so the [catch] that would report a missing file never runs;
    [vscode.Uri.file], as in [executeChange], builds a value and does not
    throw. *)
Definition validateFileChange (change : FileChange) : ValidationResult :=
  let errors :=
    if trim (filePath change) is [] then [js "File path is empty"] else [] in
  let warnings :=
    (if decide (changeType change = DELETE)
     then [js "This operation will permanently delete the file"] else [])
    ++ (if (1000000 <? N.of_nat (length (newContent change)))%N
        then [js "This is a very large file modification"] else []) in
  mkValidation (bool_decide (length errors = 0)) errors warnings.

(** [validateChange], lines 657-668. *)
Definition validateChange (s : State) (changeId : JsString) : ValidationResult :=
  match find (heap s) (pendingChanges s) changeId with
  | Some (_, r) =>
      match heap s !! r with
      | Some change => validateFileChange change
      | None => mkValidation false [js "Change not found"] []
      end
  | None => mkValidation false [js "Change not found"] []
  end.

(** [i < lines.length ? lines[i] : ''] *)
Definition lineAt (lines : list JsString) (i : nat) : JsString := default [] (lines !! i).

(** [countChanges], lines 1321-1339. *)
Definition countChanges (originalContent newContent : JsString) : nat :=
  let originalLines := split LF originalContent in
  let newLines := split LF newContent in
  let maxLines := length originalLines `max` length newLines in
  length (List.filter
            (λ i, negb (bool_decide (lineAt originalLines i = lineAt newLines i)))
            (seq 0 maxLines)).

(** [vscode.Position] *)
Record Position : Type := mkPosition { line : nat; character : nat }.

(** [getEndPosition], lines 1288-1293. *)
Definition getEndPosition (text : JsString) : Position :=
  let lines := split LF text in
  let lastLineIndex := 0 `max` (length lines - 1) in
  let lastLineLength := length (lineAt lines lastLineIndex) in
  mkPosition lastLineIndex lastLineLength.

(** The changes of [s] are changes of [s'], up to their status. *)
Definition sameRecords (s s' : State) : Prop :=
  ∀ r c, heap s !! r = Some c → ∃ st, heap s' !! r = Some (withStatus st c).

(** *** Inputs of the examples *)

(** A file is replaced through [createChange] and the change is applied. *)
Definition appliedReplacement : list Call :=
  [CreateChange shortening; ApplyChange (changeIdAt reliable 1) false].

(** A line is inserted into a file through [createChange]. *)
Definition insertion : FileEditRequest :=
  mkEditRequest (js "/t/a.ts") INSERT (js "new") None (js "insert") None AI_GENERATED.

(** A file is deleted and the change is applied. *)
Definition appliedDeletion : list Call :=
  [DeleteFile (js "/t/a.ts") (js "desc") AI_GENERATED None;
   ApplyChange (changeIdAt reliable 1) false].

End FileWriterRest.

(* ===================================================================== *)
(** ** The parser of the command that modifies a file *)
(* ===================================================================== *)

Module ModifyFile.
Import Js Regex AiService.


(** The [codeIndicators] of [parseModificationResponse]. *)
Definition codeIndicators : list JsString :=
  [js "{"; js "}"; js ";"; js "function"; js "const"; js "let"; js "var"; js "class";
   js "import"; js "export"].



End ModifyFile.

(* ===================================================================== *)
(** ** Properties of the provider router and of the response parser *)
(* ===================================================================== *)

Module AiServiceFacts.
Import Js Regex AiService Fenced.


(** **** The matcher on a fenced block *)

Section Matching.
Context {R : Type}.
Implicit Types (k : JsString → option JsString → option R) (cap : option JsString).









End Matching.

(** **** The marker *)






Section Block.
Context {R : Type}.
Implicit Types (k : JsString → option JsString → option R) (cap : option JsString).




End Block.




(** **** The loops over a reply *)











(** C8.  The confidence score is the reference computation of the
    specification, and it lies between 0.1 and 1.0. *)
Theorem calculateConfidence_reference (content : JsString) (type : AIRequestType)
    (metadata : option Metadata) :
  calculateConfidence content type metadata
  = referenceConfidence (signalsOf content type metadata)
  ∧ (0.1 <=? calculateConfidence content type metadata)%float = true
  ∧ (calculateConfidence content type metadata <=? 1.0)%float = true.
Proof.
  unfold calculateConfidence, referenceConfidence, signalsOf, reportsNaturalStop,
    reportsTruncation, addIf, subtractIf. simpl.
  rewrite bool_decide_not.
  destruct (100 <? length content)%nat, (500 <? length content)%nat,
    (200 <? length content)%nat, (bool_decide (type = explain)),
    (includes fence content); simpl;
  (destruct metadata as [m|]; simpl;
   [ destruct (isText (finishReason m) "stop" || isText (stopReason m) "end_turn"),
       (isText (finishReason m) "length" || isText (stopReason m) "max_tokens") | ];
   vm_compute; repeat split; reflexivity).
Qed.


End AiServiceFacts.

(* ===================================================================== *)
(** ** Properties of the change manager *)
(* ===================================================================== *)

Module FileWriterFacts.
Import Js FileWriter.

Create HintDb external discriminated.

(** **** Texts without lone surrogates *)

Lemma toWellFormed_cons_other c s :
  isHighSurrogate c = false → isLowSurrogate c = false →
  toWellFormed (c :: s) = c :: toWellFormed s.
Proof. intros Hh Hl. simpl. by rewrite Hh, Hl. Qed.

Lemma toWellFormed_pair c d s :
  isHighSurrogate c = true → isLowSurrogate d = true →
  toWellFormed (c :: d :: s) = c :: d :: toWellFormed s.
Proof. intros Hh Hl. cbn [toWellFormed]. by rewrite Hh, Hl. Qed.

Lemma toWellFormed_lone_high c s :
  isHighSurrogate c = true →
  (if s is d :: _ then isLowSurrogate d = false else True) →
  toWellFormed (c :: s) = REPLACEMENT :: toWellFormed s.
Proof.
  intros Hh Hl. destruct s as [|d s]; cbn [toWellFormed]; rewrite Hh; [done|].
  by rewrite Hl.
Qed.

Lemma toWellFormed_lone_low c s :
  isHighSurrogate c = false → isLowSurrogate c = true →
  toWellFormed (c :: s) = REPLACEMENT :: toWellFormed s.
Proof. intros Hh Hl. cbn [toWellFormed]. by rewrite Hh, Hl. Qed.

(** The conversion changes a text that it has converted no more. *)
Lemma toWellFormed_idemp s : toWellFormed (toWellFormed s) = toWellFormed s.
Proof.
  remember (length s) as n eqn:Hn. revert s Hn.
  induction n as [n IH] using lt_wf_ind. intros s Hn.
  destruct s as [|c s]; [done|]. simpl in Hn.
  destruct (isHighSurrogate c) eqn:Hh.
  - destruct s as [|d s].
    + by rewrite toWellFormed_lone_high.
    + simpl in Hn. destruct (isLowSurrogate d) eqn:Hl.
      * rewrite !toWellFormed_pair by done.
        by rewrite (IH (length s) ltac:(lia) s eq_refl).
      * rewrite (toWellFormed_lone_high c) by done.
        rewrite (toWellFormed_cons_other REPLACEMENT) by done.
        by rewrite (IH (S (length s)) ltac:(lia) (d :: s) eq_refl).
  - destruct (isLowSurrogate c) eqn:Hl.
    + rewrite toWellFormed_lone_low by done.
      rewrite (toWellFormed_cons_other REPLACEMENT) by done.
      by rewrite (IH (length s) ltac:(lia) s eq_refl).
    + rewrite !toWellFormed_cons_other by done.
      by rewrite (IH (length s) ltac:(lia) s eq_refl).
Qed.

Lemma toWellFormed_length s : length (toWellFormed s) = length s.
Proof.
  remember (length s) as n eqn:Hn. revert s Hn.
  induction n as [n IH] using lt_wf_ind. intros s Hn.
  destruct s as [|c s]; [done|]. simpl in Hn.
  destruct (isHighSurrogate c) eqn:Hh.
  - destruct s as [|d s].
    + by rewrite toWellFormed_lone_high.
    + simpl in Hn. destruct (isLowSurrogate d) eqn:Hl.
      * rewrite toWellFormed_pair by done. cbn [length].
        by rewrite (IH (length s) ltac:(lia) s eq_refl).
      * rewrite (toWellFormed_lone_high c) by done. cbn [length].
        by rewrite (IH (S (length s)) ltac:(lia) (d :: s) eq_refl).
  - destruct (isLowSurrogate c) eqn:Hl.
    + rewrite toWellFormed_lone_low by done. cbn [length].
      by rewrite (IH (length s) ltac:(lia) s eq_refl).
    + rewrite toWellFormed_cons_other by done. cbn [length].
      by rewrite (IH (length s) ltac:(lia) s eq_refl).
Qed.

(** A newline separates what the conversion does on its two sides. *)
Lemma toWellFormed_app_LF a b :
  toWellFormed (a ++ LF :: b) = toWellFormed a ++ LF :: toWellFormed b.
Proof.
  remember (length a) as n eqn:Hn. revert a Hn.
  induction n as [n IH] using lt_wf_ind. intros a Hn.
  destruct a as [|c a]; [by rewrite app_nil_l, toWellFormed_cons_other|].
  simpl in Hn. rewrite <- app_comm_cons.
  destruct (isHighSurrogate c) eqn:Hh.
  - destruct a as [|d a].
    + rewrite app_nil_l, (toWellFormed_lone_high c (LF :: b)) by done.
      rewrite (toWellFormed_lone_high c []) by done.
      by rewrite toWellFormed_cons_other.
    + simpl in Hn. destruct (isLowSurrogate d) eqn:Hl.
      * rewrite <- app_comm_cons, !toWellFormed_pair by done.
        by rewrite (IH (length a) ltac:(lia) a eq_refl).
      * rewrite !(toWellFormed_lone_high c) by (by rewrite <- ?app_comm_cons).
        by rewrite (IH (S (length a)) ltac:(lia) (d :: a) eq_refl).
  - destruct (isLowSurrogate c) eqn:Hl.
    + rewrite !toWellFormed_lone_low by done.
      by rewrite (IH (length a) ltac:(lia) a eq_refl).
    + rewrite !toWellFormed_cons_other by done.
      by rewrite (IH (length a) ltac:(lia) a eq_refl).
Qed.

(** Putting a text and a newline in at the start of a line of a text
    without lone surrogates: the conversion changes the new text only. *)
Lemma toWellFormed_insert before after new :
  toWellFormed (before ++ after) = before ++ after →
  before = [] ∨ (∃ b, before = b ++ [LF]) →
  toWellFormed (before ++ new ++ [LF] ++ after)
  = before ++ toWellFormed new ++ [LF] ++ after.
Proof.
  intros Hwf [->|[b ->]].
  - simpl in *. by rewrite toWellFormed_app_LF, Hwf.
  - rewrite <- !app_assoc in *. simpl in *.
    rewrite toWellFormed_app_LF in Hwf.
    apply app_inj_1 in Hwf as [Hb Hafter]; [|apply toWellFormed_length].
    injection Hafter as Hafter.
    by rewrite !toWellFormed_app_LF, Hb, Hafter.
Qed.

Section Computations.
Context (env : Env).

(** **** Computations that only touch the collaborators *)

Lemma external_ret {A} (a : A) : external (mret a).
Proof. done. Qed.

Lemma external_throw {A} e : external (@throw A e).
Proof. done. Qed.

Lemma external_get : external get.
Proof. done. Qed.

Lemma external_bind {A B} (m : M A) (f : A → M B) :
  external m → (∀ a, external (f a)) → external (m ≫= f).
Proof.
  intros Hm Hf s. unfold mbind, M_bind. specialize (Hm s).
  destruct (m s) as [[a|e] s']; simpl in *; [|done].
  by rewrite Hf.
Qed.

Lemma external_tryCatch {A} (m : M A) (h : JsString → M A) :
  external m → (∀ e, external (h e)) → external (tryCatch m h).
Proof.
  intros Hm Hh s. unfold tryCatch. specialize (Hm s).
  destruct (m s) as [[a|e] s']; simpl in *; [done|].
  by rewrite Hh.
Qed.

Lemma external_tick : external tick.
Proof. done. Qed.

Lemma external_setFiles (f : State → gmap JsString JsString) :
  external (update (λ s, setFiles (f s) s)).
Proof. done. Qed.

#[local] Hint Resolve external_ret external_throw external_get external_tick
  external_setFiles : external.
#[local] Hint Extern 1 (external (_ ≫= _)) => apply external_bind; [|intros ?] : external.
#[local] Hint Extern 1 (external (tryCatch _ _)) =>
  apply external_tryCatch; [|intros ?] : external.
#[local] Hint Extern 2 (external (match ?x with _ => _ end)) => destruct x : external.

Lemma external_Date_now : external (Date_now env).
Proof. unfold Date_now. auto with external. Qed.

Lemma external_Math_random_1000 : external (Math_random_1000 env).
Proof. unfold Math_random_1000. auto with external. Qed.

Lemma external_openTextDocument path : external (openTextDocument env path).
Proof. unfold openTextDocument. auto 7 with external. Qed.

Lemma external_fs_createDirectory path : external (fs_createDirectory env path).
Proof. unfold fs_createDirectory. auto with external. Qed.

Lemma external_fs_writeFile path content : external (fs_writeFile env path content).
Proof. unfold fs_writeFile. auto with external. Qed.

Lemma external_fs_delete path : external (fs_delete env path).
Proof. unfold fs_delete. auto 7 with external. Qed.

#[local] Hint Resolve external_Date_now external_Math_random_1000
  external_openTextDocument external_fs_createDirectory external_fs_writeFile
  external_fs_delete : external.

Lemma external_writeFileContent path content : external (writeFileContent env path content).
Proof. unfold writeFileContent. auto with external. Qed.

Lemma external_deleteFilePhysically path : external (deleteFilePhysically env path).
Proof. unfold deleteFilePhysically. auto with external. Qed.

#[local] Hint Resolve external_writeFileContent external_deleteFilePhysically : external.

Lemma external_generateChangeId : external (generateChangeId env).
Proof. unfold generateChangeId. auto with external. Qed.

Lemma external_readOriginal path : external (readOriginal env path).
Proof. unfold readOriginal. auto with external. Qed.

Lemma external_executeChange change : external (executeChange env change).
Proof. unfold executeChange. auto 8 with external. Qed.

(** **** Computations that never throw *)

Lemma total_ret {A} (a : A) : total (mret a).
Proof. intros s. by exists a. Qed.

Lemma total_tryCatch {A} (m : M A) (h : JsString → M A) :
  (∀ e, total (h e)) → total (tryCatch m h).
Proof.
  intros Hh s. unfold tryCatch. destruct (m s) as [[a|e] s']; simpl; [by exists a|].
  apply Hh.
Qed.

Lemma total_readOriginal path : total (readOriginal env path).
Proof. apply total_tryCatch. intros e. apply total_ret. Qed.

Lemma total_deleteFilePhysically path : total (deleteFilePhysically env path).
Proof. apply total_tryCatch. intros e. apply total_ret. Qed.

Lemma total_executeChange change : total (executeChange env change).
Proof. apply total_tryCatch. intros e. apply total_ret. Qed.

(** A computation that is total and external, run from [s]. *)
Lemma run_total_external {A} (m : M A) (s : State) :
  total m → external m → ∃ a s', m s = (Return a, s') ∧ manager s' = manager s.
Proof.
  intros Ht He. destruct (Ht s) as [a Ha]. specialize (He s).
  destruct (m s) as [r s'] eqn:E. simpl in *. subst r. by exists a, s'.
Qed.

Lemma executeChange_runs change s :
  ∃ success s', executeChange env change s = (Return success, s')
                ∧ manager s' = manager s.
Proof. apply run_total_external; [apply total_executeChange | apply external_executeChange]. Qed.

(** **** Looking up a change by its id *)

Lemma hasId_alter h st r changeId r' :
  hasId (alter (withStatus st) r h) changeId r' ↔ hasId h changeId r'.
Proof.
  unfold hasId. destruct (decide (r = r')) as [->|Hne].
  - rewrite list_lookup_alter_eq. by destruct (h !! r').
  - by rewrite list_lookup_alter_ne.
Qed.

Lemma find_alter h st r array changeId :
  find (alter (withStatus st) r h) array changeId = find h array changeId.
Proof. apply list_find_ext. intros r'. apply hasId_alter. Qed.

Lemma find_Some h array changeId i r :
  find h array changeId = Some (i, r) →
  array !! i = Some r ∧ (∃ c, h !! r = Some c ∧ id c = changeId)
  ∧ ∀ j r', array !! j = Some r' → j < i → ¬ hasId h changeId r'.
Proof.
  unfold find. intros (Hi & Hid & Hfirst)%list_find_Some. split_and!; [done| |done].
  unfold hasId in Hid. destruct (h !! r) as [c|]; simplify_eq/=. by exists c.
Qed.

Lemma find_None h array changeId :
  find h array changeId = None ↔ ∀ r, r ∈ array → ¬ hasId h changeId r.
Proof. unfold find. rewrite list_find_None, Forall_forall. done. Qed.

(** **** The outcomes of [applyChange] *)

Lemma moveToHistory_runs change object i s :
  heap s !! change = Some object →
  find (heap s) (pendingChanges s) (id object) = Some (i, change) →
  moveToHistory change s
  = (Return (), mkState (heap s) (trimHistory (changeHistory s ++ [change]))
                        (delete i (pendingChanges s)) (files s) (calls s)).
Proof.
  intros Hobj Hfind. unfold moveToHistory, deref, mbind, M_bind, update.
  rewrite Hobj, Hfind. simpl. unfold trimHistory.
  case_decide; reflexivity.
Qed.

Lemma applyChange_not_found changeId dryRun s :
  find (heap s) (pendingChanges s) changeId = None →
  applyChange env changeId dryRun s = (Throw (notFound changeId), s).
Proof. intros Hfind. unfold applyChange, mbind, M_bind, get. by rewrite Hfind. Qed.

Lemma applyChange_dryRun changeId i r s :
  find (heap s) (pendingChanges s) changeId = Some (i, r) →
  applyChange env changeId true s = (Return true, s).
Proof. intros Hfind. unfold applyChange, mbind, M_bind, get. by rewrite Hfind. Qed.

Lemma applyChange_executes changeId i r s :
  find (heap s) (pendingChanges s) changeId = Some (i, r) →
  ∃ object success s',
    heap s !! r = Some object ∧ id object = changeId
    ∧ executeChange env object s = (Return success, s')
    ∧ manager s' = manager s
    ∧ applyChange env changeId false s
      = (Return success, if success then applied i r s' else failedAt r s').
Proof.
  intros Hfind. destruct (find_Some _ _ _ _ _ Hfind) as (Hi & (object & Hobj & Hid) & _).
  destruct (executeChange_runs object s) as (success & s' & Hexec & Hmgr).
  exists object, success, s'. split_and!; try done.
  unfold applyChange, mbind, M_bind, get. rewrite Hfind.
  unfold tryCatch, deref. rewrite Hobj, Hexec.
  injection Hmgr as Hheap Hhist Hpend.
  destruct success.
  - unfold setStatus, update.
    rewrite (moveToHistory_runs r (withStatus APPLIED object) i).
    + simpl. unfold applied. by rewrite Hheap, Hhist, Hpend.
    + simpl. rewrite Hheap. rewrite list_lookup_alter_eq, Hobj. done.
    + simpl. rewrite find_alter, Hheap, Hpend, Hid. done.
  - reflexivity.
Qed.

End Computations.

(** **** The invariant is kept by every change of the writer's records *)

Section Invariant.

Lemma lookup_alter_status (h : list FileChange) st (r r' : ref) c' :
  alter (withStatus st) r h !! r' = Some c' →
  (r' = r ∧ ∃ c, h !! r = Some c ∧ c' = withStatus st c)
  ∨ (r' ≠ r ∧ h !! r' = Some c').
Proof.
  destruct (decide (r = r')) as [->|Hne].
  - rewrite list_lookup_alter_eq. destruct (h !! r') as [c|] eqn:E; simpl; [|done].
    intros [= <-]. left. eauto.
  - rewrite list_lookup_alter_ne by done. intros. right. eauto.
Qed.

Lemma NoDup_delete_index (l : list ref) i :
  NoDup l → NoDup (delete i l).
Proof. intros. eapply sublist_NoDup; [done | apply sublist_delete]. Qed.

Lemma not_elem_of_delete_index (l : list ref) i r :
  NoDup l → l !! i = Some r → r ∉ delete i l.
Proof.
  intros Hnd Hi. rewrite delete_take_drop.
  rewrite <- (take_drop_middle l i r Hi) in Hnd.
  apply NoDup_app in Hnd as (_ & Hl & Hr).
  apply NoDup_cons in Hr as [Hr _].
  intros [Hin|Hin]%elem_of_app; [|done].
  apply (Hl r Hin). left.
Qed.

Lemma elem_of_delete_index (l : list ref) i r r' :
  l !! i = Some r → r' ∈ l → r' ≠ r → r' ∈ delete i l.
Proof.
  intros Hi Hin Hne. rewrite delete_take_drop.
  rewrite <- (take_drop_middle l i r Hi) in Hin.
  apply elem_of_app in Hin as [Hin|Hin]; apply elem_of_app; [by left|].
  apply elem_of_cons in Hin as [->|Hin]; [done | by right].
Qed.

Lemma trimHistory_subseteq l r : r ∈ trimHistory l → r ∈ l.
Proof.
  unfold trimHistory. case_decide; [|done].
  intros Hin. eapply elem_of_sublist; [done | apply sublist_drop].
Qed.

Lemma trimHistory_NoDup l : NoDup l → NoDup (trimHistory l).
Proof.
  unfold trimHistory. case_decide; [|done].
  intros. eapply sublist_NoDup; [done | apply sublist_drop].
Qed.

Lemma trimHistory_length l : length (trimHistory l) ≤ maxHistorySize.
Proof. unfold trimHistory. case_decide; [rewrite length_drop|]; lia. Qed.

Lemma trimHistory_full l :
  maxHistorySize < length l → length (trimHistory l) = maxHistorySize.
Proof. intros. unfold trimHistory. rewrite decide_True by done. rewrite length_drop. lia. Qed.

Lemma trimHistory_short l : length l ≤ maxHistorySize → trimHistory l = l.
Proof. intros. unfold trimHistory. rewrite decide_False by lia. done. Qed.

Lemma Inv_manager s s' : manager s' = manager s → Inv s → Inv s'.
Proof.
  intros [= Hh Hc Hp] [H1 H2 H3 H4 H5 H6 H7].
  split; rewrite ?Hh, ?Hc, ?Hp; done.
Qed.

Lemma Inv_initial workspace : Inv (initial workspace).
Proof.
  split; simpl; try apply NoDup_nil_2; try (intros r Hr; by apply elem_of_nil in Hr);
    try done; unfold maxHistorySize; lia.
Qed.

(** A pending change is not in the history. *)
Lemma Inv_pending_not_history s r :
  Inv s → r ∈ pendingChanges s → r ∉ changeHistory s.
Proof.
  intros HI Hp Hh.
  destruct (inv_pending_status s HI r Hp) as (c & Hc & Hst).
  destruct (inv_history_status s HI r Hh) as (c' & Hc' & Hst').
  simplify_eq. destruct Hst; congruence.
Qed.

(** Staging: a new object with the status [PENDING], pushed on the pending
    array. *)
Lemma Inv_staged s c f n :
  Inv s → status c = PENDING →
  Inv (mkState (heap s ++ [c]) (changeHistory s)
               (pendingChanges s ++ [length (heap s)]) f n).
Proof.
  intros HI Hst. destruct HI as [H1 H2 H3 H4 H5 H6 H7].
  assert (Hfresh : length (heap s) ∉ pendingChanges s).
  { intros Hin. destruct (H3 _ Hin) as (c' & Hc' & _).
    apply lookup_lt_Some in Hc'. lia. }
  split; simpl.
  - apply NoDup_app. split_and!; [done| |apply NoDup_singleton].
    intros r Hr ->%list_elem_of_singleton. done.
  - done.
  - intros r [Hr| ->%list_elem_of_singleton]%elem_of_app.
    + destruct (H3 r Hr) as (c' & Hc' & Hs). exists c'. split; [|done].
      by apply lookup_app_l_Some.
    + exists c. split; [|by left]. by rewrite list_lookup_middle.
  - intros r Hr. destruct (H4 r Hr) as (c' & Hc' & Hs). exists c'. split; [|done].
    by apply lookup_app_l_Some.
  - intros r c' Hc' Hs. apply elem_of_app.
    apply lookup_app_Some in Hc' as [Hc'|[Hge Hc']].
    + left. eauto.
    + right. apply list_elem_of_singleton.
      destruct (r - length (heap s)) as [|k] eqn:E; simplify_eq/=. lia.
  - intros r c' Hc' Hs.
    apply lookup_app_Some in Hc' as [Hc'|[Hge Hc']]; [eauto|].
    destruct (r - length (heap s)) as [|k] eqn:E; simplify_eq/=. congruence.
  - done.
Qed.

(** A failed application: the status becomes [FAILED], the change stays. *)
Lemma Inv_failedAt s r :
  Inv s → r ∈ pendingChanges s → Inv (failedAt r s).
Proof.
  intros HI Hr. pose proof (Inv_pending_not_history s r HI Hr) as Hnh.
  destruct HI as [H1 H2 H3 H4 H5 H6 H7]. split; simpl; try done.
  - intros r' Hr'. destruct (H3 r' Hr') as (c & Hc & Hs).
    destruct (decide (r = r')) as [->|Hne].
    + exists (withStatus FAILED c). rewrite list_lookup_alter_eq, Hc. split; [done|by right].
    + exists c. by rewrite list_lookup_alter_ne.
  - intros r' Hr'. destruct (H4 r' Hr') as (c & Hc & Hs).
    exists c. rewrite list_lookup_alter_ne; [done|]. by intros ->.
  - intros r' c' [[-> (c & Hc & ->)]|[Hne Hc']]%lookup_alter_status Hs; [done|eauto].
  - intros r' c' [[-> (c & Hc & ->)]|[Hne Hc']]%lookup_alter_status Hs; [done|eauto].
Qed.

(** A successful application: the status becomes [APPLIED], the change
    moves from the pending array to the end of the history. *)
Lemma Inv_applied s i r :
  Inv s → pendingChanges s !! i = Some r → Inv (applied i r s).
Proof.
  intros HI Hi. assert (Hr : r ∈ pendingChanges s) by (by eapply list_elem_of_lookup_2).
  pose proof (Inv_pending_not_history s r HI Hr) as Hnh.
  destruct (inv_pending_status s HI r Hr) as (c & Hc & Hst).
  destruct HI as [H1 H2 H3 H4 H5 H6 H7].
  assert (Hnd : NoDup (changeHistory s ++ [r])).
  { apply NoDup_app. split_and!; [done| |apply NoDup_singleton].
    intros r' Hr' ->%list_elem_of_singleton. done. }
  split; simpl.
  - by apply NoDup_delete_index.
  - by apply trimHistory_NoDup.
  - intros r' Hr'. pose proof (not_elem_of_delete_index _ _ _ H1 Hi) as Hnot.
    apply list_elem_of_delete_inv in Hr' as Hr''.
    destruct (H3 r' Hr'') as (c' & Hc' & Hs). exists c'.
    rewrite list_lookup_alter_ne; [done|]. by intros ->.
  - intros r' [Hr'| ->%list_elem_of_singleton]%trimHistory_subseteq%elem_of_app.
    + destruct (H4 r' Hr') as (c' & Hc' & Hs). exists c'.
      rewrite list_lookup_alter_ne; [done|]. by intros ->.
    + exists (withStatus APPLIED c). by rewrite list_lookup_alter_eq, Hc.
  - intros r' c' [[-> (c0 & Hc0 & ->)]|[Hne Hc']]%lookup_alter_status Hs; [done|].
    eapply elem_of_delete_index; eauto.
  - intros r' c' Hc' Hs.
    destruct (decide (maxHistorySize < length (changeHistory s ++ [r]))) as [Hlong|Hshort].
    { right. by apply trimHistory_full. }
    rewrite trimHistory_short by lia. left. apply elem_of_app.
    apply lookup_alter_status in Hc' as [[-> _]|[Hne Hc']].
    + right. by apply list_elem_of_singleton.
    + destruct (H6 r' c' Hc' Hs) as [Hin|Hfull]; [by left|].
      rewrite length_app in Hshort. simpl in Hshort. lia.
  - apply trimHistory_length.
Qed.

(** A cancellation: the status becomes [CANCELLED], the change leaves the
    pending array. *)
Lemma Inv_cancelled s i r f n :
  Inv s → pendingChanges s !! i = Some r →
  Inv (mkState (alter (withStatus CANCELLED) r (heap s)) (changeHistory s)
               (delete i (pendingChanges s)) f n).
Proof.
  intros HI Hi. assert (Hr : r ∈ pendingChanges s) by (by eapply list_elem_of_lookup_2).
  pose proof (Inv_pending_not_history s r HI Hr) as Hnh.
  destruct HI as [H1 H2 H3 H4 H5 H6 H7]. split; simpl; try done.
  - by apply NoDup_delete_index.
  - intros r' Hr'. pose proof (not_elem_of_delete_index _ _ _ H1 Hi) as Hnot.
    apply list_elem_of_delete_inv in Hr' as Hr''.
    destruct (H3 r' Hr'') as (c' & Hc' & Hs). exists c'.
    rewrite list_lookup_alter_ne; [done|]. by intros ->.
  - intros r' Hr'. destruct (H4 r' Hr') as (c' & Hc' & Hs). exists c'.
    rewrite list_lookup_alter_ne; [done|]. by intros ->.
  - intros r' c' [[-> (c0 & Hc0 & ->)]|[Hne Hc']]%lookup_alter_status Hs; [done|].
    eapply elem_of_delete_index; eauto.
  - intros r' c' [[-> (c0 & Hc0 & ->)]|[Hne Hc']]%lookup_alter_status Hs; [done|eauto].
Qed.

End Invariant.

(** **** What the staging operations return *)

Section Staging.
Context (env : Env).

Lemma readOriginal_runs path s :
  readOriginal env path s
  = (Return (default [] (readableAt env s path)), setCalls (S (calls s)) s).
Proof.
  unfold readOriginal, tryCatch, openTextDocument, readableAt, mbind, M_bind, tick.
  simpl. destruct (fault env (calls s)); [done|].
  unfold get. simpl. by destruct (files s !! path).
Qed.

Lemma createFile_runs filePath content description commandType reasoning s :
  createFile env filePath content description commandType reasoning s
  = (Return (length (heap s)),
     staged s (mkChange (changeIdAt env (calls s)) filePath [] content CREATE
                        description (now env (2 + calls s)) PENDING commandType
                        reasoning)
            (3 + calls s)).
Proof. reflexivity. Qed.

Lemma modifyFile_runs filePath newContent description commandType reasoning s :
  modifyFile env filePath newContent description commandType reasoning s
  = (Return (length (heap s)),
     staged s (mkChange (changeIdAt env (1 + calls s)) filePath
                        (default [] (readableAt env s filePath)) newContent MODIFY
                        description (now env (3 + calls s)) PENDING commandType
                        reasoning)
            (4 + calls s)).
Proof. unfold modifyFile, mbind at 1, M_bind at 1. rewrite readOriginal_runs. reflexivity. Qed.

Lemma deleteFile_runs filePath description commandType reasoning s :
  deleteFile env filePath description commandType reasoning s
  = (Return (length (heap s)),
     staged s (mkChange (changeIdAt env (1 + calls s)) filePath
                        (default [] (readableAt env s filePath)) [] DELETE
                        description (now env (3 + calls s)) PENDING commandType
                        reasoning)
            (4 + calls s)).
Proof. unfold deleteFile, mbind at 1, M_bind at 1. rewrite readOriginal_runs. reflexivity. Qed.

Lemma createChange_runs request s :
  ∃ c n0 n, status c = PENDING ∧ changeType c = r_editType request
         ∧ newContent c = r_newContent request
         ∧ id c = changeIdAt env n0 ∧ calls s ≤ n0 < n
         ∧ createChange env request s = (Return (length (heap s)), staged s c n).
Proof.
  unfold createChange. case_decide.
  - unfold mbind at 1, M_bind at 1. rewrite readOriginal_runs.
    eexists _, (1 + calls s), _. split_and!; [| | | | | |reflexivity]; simpl; try done; lia.
  - eexists _, (calls s), _. split_and!; [| | | | | |reflexivity]; simpl; try done; lia.
Qed.

End Staging.

(** **** Every operation keeps the invariant *)

Section Preservation.
Context (env : Env).

Lemma Inv_applyChange changeId dryRun s :
  Inv s → Inv (applyChange env changeId dryRun s).2.
Proof.
  intros HI. destruct (find (heap s) (pendingChanges s) changeId) as [[i r]|] eqn:Hfind.
  - destruct dryRun.
    + by erewrite applyChange_dryRun.
    + destruct (applyChange_executes env _ _ _ _ Hfind)
        as (object & success & s' & Hobj & Hid & Hexec & Hmgr & ->).
      apply find_Some in Hfind as (Hi & _ & _).
      pose proof (Inv_manager s s' Hmgr HI) as HI'.
      injection Hmgr as Hheap Hhist Hpend. simpl.
      destruct success.
      * apply Inv_applied; [done|]. by rewrite Hpend.
      * apply Inv_failedAt; [done|]. rewrite Hpend. by eapply list_elem_of_lookup_2.
  - by rewrite applyChange_not_found.
Qed.

(** One turn of the loop of [applyAllChanges] returns, counts one more
    change, and leaves the state of one call of [applyChange] (or the state
    it found). *)
Lemma applyOne_runs change dryRun t s :
  ∃ t' s', applyOne env change dryRun t s = (Return t', s')
    ∧ successful t' + failed t' = S (successful t + failed t)
    ∧ (s' = s ∨ ∃ changeId, s' = (applyChange env changeId dryRun s).2).
Proof.
  unfold applyOne, tryCatch, deref, mbind, M_bind.
  destruct (heap s !! change) as [object|]; simpl.
  - destruct (applyChange env (id object) dryRun s) as [[[]|e] s'] eqn:E; simpl;
      eexists _, _; (split; [reflexivity|]); simpl;
      (split; [lia|]); right; exists (id object); by rewrite E.
  - eexists _, _. split; [reflexivity|]. simpl. split; [lia|]. by left.
Qed.

(** The loop returns, counts every change of the snapshot, and keeps every
    property of the state that [applyChange] keeps. *)
Lemma applyEach_runs (P : State → Prop) changes dryRun t s :
  (∀ changeId s, P s → P (applyChange env changeId dryRun s).2) →
  ∃ t' s', applyEach env changes dryRun t s = (Return t', s')
    ∧ successful t' + failed t' = length changes + (successful t + failed t)
    ∧ (P s → P s').
Proof.
  intros Hkeep.
  revert t s. induction changes as [|change changes IH]; intros t s; simpl.
  - exists t, s. done.
  - destruct (applyOne_runs change dryRun t s) as (t1 & s1 & H1 & Hcount & Hstate).
    destruct (IH t1 s1) as (t' & s' & H' & Hcount' & Hinv).
    exists t', s'. unfold mbind, M_bind. rewrite H1. split; [done|]. split; [lia|].
    intros HI. apply Hinv. destruct Hstate as [->|[changeId ->]]; [done|].
    by apply Hkeep.
Qed.

Lemma Inv_applyAllChanges dryRun s : Inv s → Inv (applyAllChanges env dryRun s).2.
Proof.
  intros HI. unfold applyAllChanges, mbind, M_bind, get.
  destruct (applyEach_runs Inv (pendingChanges s) dryRun (mkTally 0 0) s)
    as (t' & s' & -> & _ & Hinv); [|by apply Hinv].
  intros changeId s0. apply Inv_applyChange.
Qed.

Lemma cancelChange_runs changeId s :
  match find (heap s) (pendingChanges s) changeId with
  | None => cancelChange changeId s = (Return false, s)
  | Some (i, r) =>
      cancelChange changeId s
      = (Return true, mkState (alter (withStatus CANCELLED) r (heap s)) (changeHistory s)
                              (delete i (pendingChanges s)) (files s) (calls s))
  end.
Proof.
  unfold cancelChange, mbind, M_bind, get.
  destruct (find (heap s) (pendingChanges s) changeId) as [[i r]|]; reflexivity.
Qed.

Lemma Inv_cancelChange changeId s : Inv s → Inv (cancelChange changeId s).2.
Proof.
  intros HI. pose proof (cancelChange_runs changeId s) as Hrun.
  destruct (find (heap s) (pendingChanges s) changeId) as [[i r]|] eqn:Hfind;
    rewrite Hrun; simpl; [|done].
  apply find_Some in Hfind as (Hi & _ & _). by apply Inv_cancelled.
Qed.

Lemma lookup_cancel_all (l : list ref) (h : list FileChange) (r : ref) :
  foldl (λ h change, alter (withStatus CANCELLED) change h) h l !! r
  = if decide (r ∈ l) then withStatus CANCELLED <$> h !! r else h !! r.
Proof.
  revert h. induction l as [|r' l IH]; intros h.
  - case_decide as Hin; [by apply elem_of_nil in Hin | done].
  - cbn [foldl]. rewrite IH. destruct (decide (r' = r)) as [->|Hne].
    + rewrite list_lookup_alter_eq.
      destruct (decide (r ∈ r :: l)) as [_|Hnin]; [|destruct Hnin; left].
      case_decide; [|done]. by destruct (h !! r).
    + rewrite list_lookup_alter_ne by done.
      destruct (decide (r ∈ l)) as [Hin|Hnin]; case_decide as Hin'; try done.
      * destruct Hin'. by right.
      * apply elem_of_cons in Hin' as [->|?]; done.
Qed.

Lemma Inv_clearPendingChanges s : Inv s → Inv (clearPendingChanges s).2.
Proof.
  intros HI. unfold clearPendingChanges, mbind, M_bind, get, update. simpl.
  pose proof (Inv_pending_not_history s) as Hnh.
  destruct HI as [H1 H2 H3 H4 H5 H6 H7].
  split; simpl; try done.
  - apply NoDup_nil_2.
  - intros r Hr. by apply elem_of_nil in Hr.
  - intros r Hr. destruct (H4 r Hr) as (c & Hc & Hs). exists c.
    rewrite lookup_cancel_all, decide_False; [done|].
    intros Hp. eapply Hnh; eauto. by split.
  - intros r c. rewrite lookup_cancel_all. case_decide as Hin.
    + destruct (heap s !! r); simpl; [|done]. by intros [= <-].
    + intros Hc Hs. destruct Hin. eauto.
  - intros r c. rewrite lookup_cancel_all. case_decide as Hin.
    + destruct (heap s !! r); simpl; [|done]. by intros [= <-].
    + eauto.
Qed.

Lemma external_undoChange changeId : external (undoChange env changeId).
Proof.
  intros s. unfold undoChange, mbind at 1, M_bind at 1, get.
  destruct (find (heap s) (changeHistory s) changeId) as [[i r]|]; [|done].
  unfold mbind at 1, M_bind at 1, deref.
  destruct (heap s !! r) as [change|]; [|done].
  case_decide; [done|].
  apply external_tryCatch; [|done].
  destruct (changeType change); try done.
  - apply external_bind; [apply external_deleteFilePhysically | done].
  - apply external_bind; [apply external_writeFileContent | done].
  - apply external_bind; [apply external_writeFileContent | done].
Qed.

Lemma Inv_after c s : Inv s → Inv (after env c s).
Proof.
  intros HI. destruct c; unfold after.
  - rewrite createFile_runs. by apply Inv_staged.
  - rewrite modifyFile_runs. by apply Inv_staged.
  - rewrite deleteFile_runs. by apply Inv_staged.
  - destruct (createChange_runs env request s) as (c & n0 & n & Hs & _ & _ & _ & _ & ->).
    by apply Inv_staged.
  - by apply Inv_applyChange.
  - by apply Inv_applyAllChanges.
  - by apply Inv_cancelChange.
  - by apply Inv_clearPendingChanges.
  - eapply Inv_manager; [apply external_undoChange | done].
Qed.

Lemma Inv_run cs s : Inv s → Inv (run env cs s).
Proof.
  revert s. induction cs as [|c cs IH]; intros s HI; simpl; [done|].
  apply IH. by apply Inv_after.
Qed.

End Preservation.

(** **** The ids of the changes *)

Section Identifiers.
Context (env : Env).

Lemma advancing_ret {A} (a : A) : advancing (mret a).
Proof. intros s. done. Qed.

Lemma advancing_throw {A} e : advancing (@throw A e).
Proof. intros s. done. Qed.

Lemma advancing_get : advancing get.
Proof. intros s. done. Qed.

Lemma advancing_bind {A B} (m : M A) (f : A → M B) :
  advancing m → (∀ a, advancing (f a)) → advancing (m ≫= f).
Proof.
  intros Hm Hf s. unfold mbind, M_bind. specialize (Hm s).
  destruct (m s) as [[a|e] s']; simpl in *; [|done].
  specialize (Hf a s'). lia.
Qed.

Lemma advancing_tryCatch {A} (m : M A) (h : JsString → M A) :
  advancing m → (∀ e, advancing (h e)) → advancing (tryCatch m h).
Proof.
  intros Hm Hh s. unfold tryCatch. specialize (Hm s).
  destruct (m s) as [[a|e] s']; simpl in *; [done|].
  specialize (Hh e s'). lia.
Qed.

Lemma advancing_tick : advancing tick.
Proof. intros s. simpl. lia. Qed.

Lemma advancing_setFiles (f : State → gmap JsString JsString) :
  advancing (update (λ s, setFiles (f s) s)).
Proof. intros s. done. Qed.

#[local] Hint Resolve advancing_ret advancing_throw advancing_get advancing_tick
  advancing_setFiles : external.
#[local] Hint Extern 1 (advancing (_ ≫= _)) => apply advancing_bind; [|intros ?] : external.
#[local] Hint Extern 1 (advancing (tryCatch _ _)) =>
  apply advancing_tryCatch; [|intros ?] : external.
#[local] Hint Extern 2 (advancing (match ?x with _ => _ end)) => destruct x : external.

Lemma advancing_writeFileContent path content :
  advancing (writeFileContent env path content).
Proof.
  unfold writeFileContent, fs_createDirectory, fs_writeFile. auto 8 with external.
Qed.

Lemma advancing_deleteFilePhysically path : advancing (deleteFilePhysically env path).
Proof. unfold deleteFilePhysically, fs_delete. auto 9 with external. Qed.

Lemma advancing_openTextDocument path : advancing (openTextDocument env path).
Proof. unfold openTextDocument. auto 7 with external. Qed.

#[local] Hint Resolve advancing_writeFileContent advancing_deleteFilePhysically
  advancing_openTextDocument : external.

Lemma advancing_executeChange change : advancing (executeChange env change).
Proof. unfold executeChange. auto 8 with external. Qed.

Lemma advancing_undoChange changeId : advancing (undoChange env changeId).
Proof.
  intros s. unfold undoChange, mbind at 1, M_bind at 1, get.
  destruct (find (heap s) (changeHistory s) changeId) as [[i r]|]; [|done].
  unfold mbind at 1, M_bind at 1, deref.
  destruct (heap s !! r) as [change|]; [|done].
  case_decide; [done|].
  apply advancing_tryCatch; [|intros e; apply advancing_ret].
  destruct (changeType change); auto with external.
Qed.

(** A state whose objects are those of [s], up to their status, reached
    after [s]. *)
Lemma Ids_resolved s s' :
  Ids env s → calls s ≤ calls s' →
  (∀ r c', heap s' !! r = Some c' → ∃ c, heap s !! r = Some c ∧ id c = id c') →
  Ids env s'.
Proof.
  intros [Hgen Hdist] Hcalls Hsame. split.
  - intros r c' Hc'. destruct (Hsame r c' Hc') as (c & Hc & Hid).
    destruct (Hgen r c Hc) as (n & Hn & Hidn). exists n. split; [lia|congruence].
  - intros r r' c1 c2 Hc1 Hc2 Hid.
    destruct (Hsame r c1 Hc1) as (d1 & Hd1 & Hid1).
    destruct (Hsame r' c2 Hc2) as (d2 & Hd2 & Hid2).
    eapply Hdist; eauto. congruence.
Qed.

Lemma Ids_alter s s' st r :
  Ids env s → calls s ≤ calls s' →
  heap s' = alter (withStatus st) r (heap s) → Ids env s'.
Proof.
  intros HI Hcalls Hheap. eapply Ids_resolved; [done..|].
  intros r' c'. rewrite Hheap.
  intros [[-> (c & Hc & ->)]|[Hne Hc']]%lookup_alter_status; eauto.
Qed.

(** Staging a change whose id is generated at a call not yet made. *)
Lemma Ids_staged s c n0 n :
  distinctIds env → Ids env s →
  id c = changeIdAt env n0 → calls s ≤ n0 < n →
  Ids env (staged s c n).
Proof.
  intros Hinj [Hgen Hdist] Hid Hn0.
  assert (Hnew : ∀ r c', heap s !! r = Some c' → id c' ≠ id c).
  { intros r c' Hc' Heq. destruct (Hgen r c' Hc') as (m & Hm & Hidm).
    assert (m = n0) by (apply Hinj; congruence). lia. }
  assert (Hlookup : ∀ r c', (heap s ++ [c]) !! r = Some c' →
            heap s !! r = Some c' ∨ (r = length (heap s) ∧ c' = c)).
  { intros r c' [Hc'|[Hge Hc']]%lookup_app_Some; [by left|right].
    destruct (r - length (heap s)) as [|k] eqn:E; simplify_eq/=. split; [lia|done]. }
  split; simpl.
  - intros r c' [Hc'|[-> ->]]%Hlookup.
    + destruct (Hgen r c' Hc') as (m & Hm & Hidm). exists m. split; [lia|done].
    + exists n0. split; [lia|done].
  - intros r r' c1 c2 [Hc1|[-> ->]]%Hlookup [Hc2|[-> ->]]%Hlookup Heq.
    + eauto.
    + by destruct (Hnew r c1 Hc1).
    + by destruct (Hnew r' c2 Hc2).
    + done.
Qed.

Lemma Ids_applyChange changeId dryRun s :
  Ids env s → Ids env (applyChange env changeId dryRun s).2.
Proof.
  intros HI. destruct (find (heap s) (pendingChanges s) changeId) as [[i r]|] eqn:Hfind.
  - destruct dryRun.
    + by erewrite applyChange_dryRun.
    + destruct (applyChange_executes env _ _ _ _ Hfind)
        as (object & success & s' & Hobj & Hid & Hexec & Hmgr & ->).
      pose proof (advancing_executeChange object s) as Hadv. rewrite Hexec in Hadv.
      injection Hmgr as Hheap Hhist Hpend. simpl in *.
      destruct success; (eapply Ids_alter; [done| |simpl; by rewrite Hheap]); simpl; lia.
  - by rewrite applyChange_not_found.
Qed.

Lemma Ids_after c s : distinctIds env → Ids env s → Ids env (after env c s).
Proof.
  intros Hinj HI. destruct c; unfold after.
  - rewrite createFile_runs. eapply Ids_staged; [done..|simpl; lia].
  - rewrite modifyFile_runs. eapply Ids_staged; [done..|simpl; lia].
  - rewrite deleteFile_runs. eapply Ids_staged; [done..|simpl; lia].
  - destruct (createChange_runs env request s)
      as (c & n0 & n & _ & _ & _ & Hid & Hn0 & ->).
    by eapply Ids_staged.
  - by apply Ids_applyChange.
  - unfold applyAllChanges, mbind, M_bind, get.
    destruct (applyEach_runs env (Ids env) (pendingChanges s) dryRun (mkTally 0 0) s)
      as (t' & s' & -> & _ & Hkeep); [|by apply Hkeep].
    intros changeId s0. apply Ids_applyChange.
  - pose proof (cancelChange_runs changeId s) as Hrun.
    destruct (find (heap s) (pendingChanges s) changeId) as [[i r]|];
      rewrite Hrun; simpl; [|done].
    by eapply Ids_alter.
  - unfold clearPendingChanges, mbind, M_bind, get, update. simpl.
    eapply Ids_resolved; [done..|]. simpl.
    intros r c'. rewrite lookup_cancel_all. case_decide.
    + destruct (heap s !! r) as [c|]; simpl; [|done]. intros [= <-]. eauto.
    + eauto.
  - eapply Ids_resolved; [done|apply advancing_undoChange|].
    pose proof (external_undoChange env changeId s) as [= -> _ _]. eauto.
Qed.

(** When the generator never repeats an id, the changes of a run have ids
    that differ from one another. *)
Lemma Ids_run cs workspace :
  distinctIds env → Ids env (run env cs (initial workspace)).
Proof.
  intros Hinj. assert (H0 : Ids env (initial workspace)).
  { split; simpl; intros r; intros; by rewrite lookup_nil in *. }
  revert H0. generalize (initial workspace).
  induction cs as [|c cs IH]; intros s HI; simpl; [done|].
  apply IH. by apply Ids_after.
Qed.

Lemma Ids_pendingIdsDistinct s : Ids env s → pendingIdsDistinct s.
Proof. intros [_ Hdist] r r' c c' _ _. apply Hdist. Qed.

Lemma Ids_idUniqueInPending s r : Ids env s → idUniqueInPending s r.
Proof. intros [_ Hdist] r' c c' Hc Hc' _ Hid. eapply Hdist; eauto. Qed.

(** An id that is generated now or later is fresh. *)
Lemma Ids_freshId s k : distinctIds env → Ids env s → freshId s (changeIdAt env (k + calls s)).
Proof.
  intros Hinj [Hgen _] r _ Hid. unfold hasId in Hid.
  destruct (heap s !! r) as [c|] eqn:Hc; simplify_eq/=.
  destruct (Hgen r c Hc) as (n & Hn & Hidn).
  assert (n = k + calls s) by (apply Hinj; congruence). lia.
Qed.

End Identifiers.

(** The clock and the generator that follow the number of the call never
    make the same id twice. *)
Lemma decimal_digits (n : N) : Forall (λ c, c ≠ 95%N) (decimal n).
Proof.
  unfold decimal, js.
  assert (H : ∀ d, Forall (λ c, c ≠ 95%N)
                (N_of_ascii <$> list_ascii_of_string (NilEmpty.string_of_uint d))).
  { induction d; simpl; constructor; done. }
  destruct (N.to_uint n) eqn:E; simpl; try apply (H (Decimal.Nil));
    constructor; try done; apply H.
Qed.

Lemma decimal_inj (m n : N) : decimal m = decimal n → m = n.
Proof.
  unfold decimal, js. intros Heq.
  apply DecimalN.Unsigned.to_uint_inj.
  assert (Hs : NilZero.string_of_uint (N.to_uint m) = NilZero.string_of_uint (N.to_uint n)).
  { rewrite <- (string_of_list_ascii_of_string (NilZero.string_of_uint (N.to_uint m))),
      <- (string_of_list_ascii_of_string (NilZero.string_of_uint (N.to_uint n))).
    f_equal. revert Heq.
    generalize (list_ascii_of_string (NilZero.string_of_uint (N.to_uint m))).
    generalize (list_ascii_of_string (NilZero.string_of_uint (N.to_uint n))).
    intros l2 l1. revert l2. induction l1 as [|a l1 IH]; intros [|b l2] [=]; [done|].
    f_equal; [|by apply IH].
    rewrite <- (ascii_N_embedding a), <- (ascii_N_embedding b). congruence. }
  assert (Hnonnil : ∀ k, N.to_uint k ≠ Decimal.Nil).
  { intros [|p]; [done|]. apply DecimalPos.Unsigned.to_uint_nonnil. }
  pose proof (NilZero.usu _ (Hnonnil m)) as Hm.
  pose proof (NilZero.usu _ (Hnonnil n)) as Hn.
  rewrite Hs in Hm. congruence.
Qed.

Lemma app_separator_inj (sep : N) (l1 l2 x y : JsString) :
  Forall (λ c, c ≠ sep) l1 → Forall (λ c, c ≠ sep) l2 →
  l1 ++ sep :: x = l2 ++ sep :: y → l1 = l2.
Proof.
  revert l2. induction l1 as [|a l1 IH]; intros [|b l2] H1 H2 Heq; simpl in *.
  - done.
  - injection Heq as <- _. by apply Forall_cons in H2 as [? _].
  - injection Heq as -> _. by apply Forall_cons in H1 as [? _].
  - injection Heq as -> Heq. f_equal.
    apply Forall_cons in H1 as [_ H1]. apply Forall_cons in H2 as [_ H2]. eauto.
Qed.

Lemma distinctIds_failingAt ns : distinctIds (failingAt ns).
Proof.
  intros m n. unfold changeIdAt, failingAt. cbn [now random]. intros Heq.
  apply app_inv_head in Heq.
  apply (app_separator_inj 95%N _ _ (decimal _) (decimal _)) in Heq;
    [|apply decimal_digits..].
  apply decimal_inj in Heq. lia.
Qed.

(** **** The claims on the collections and on [applyChange] *)

Lemma startsWith_refl (p s : JsString) : startsWith p (p ++ s) = true.
Proof. induction p as [|c p IH]; simpl; [done|]. by rewrite N.eqb_refl. Qed.

Lemma includes_app_r (p q : JsString) : includes p (q ++ p) = true.
Proof.
  induction q as [|c q IH]; simpl.
  - pose proof (startsWith_refl p []) as H. rewrite app_nil_r in H.
    destruct p; simpl in *; [done|]. by rewrite H.
  - rewrite IH. apply orb_true_r.
Qed.

(** Scenario A of the specification: a file is staged and applied; the call
    returns [true], the file holds the content, and the change is in the
    history with the status [APPLIED]. *)
Example scenarioA :
  let s := run reliable appliedCreation (initial ∅) in
  files s !! js "/t/a.ts" = Some (js "const x=1;")
  ∧ pendingChanges s = [] ∧ changeHistory s = [0]
  ∧ status <$> heap s = [APPLIED].
Proof. vm_compute. split_and!; reflexivity. Qed.



(** C6.  [applyChange] throws exactly when no pending change has the id;
    the error then carries the message "Change not found: " followed by the
    id, and nothing has been changed. *)
Theorem applyChange_not_found_only (env : Env) (changeId : JsString) (dryRun : bool)
    (s : State) :
  ((∀ r, r ∈ pendingChanges s → ¬ hasId (heap s) changeId r) →
   applyChange env changeId dryRun s = (Throw (notFound changeId), s))
  ∧ includes changeId (notFound changeId) = true
  ∧ (∀ e s', applyChange env changeId dryRun s = (Throw e, s') →
     ∀ r, r ∈ pendingChanges s → ¬ hasId (heap s) changeId r).
Proof.
  split_and!.
  - intros Hnone. apply applyChange_not_found. by apply find_None.
  - apply includes_app_r.
  - intros e s' Hthrow. apply find_None.
    destruct (find (heap s) (pendingChanges s) changeId) as [[i r]|] eqn:Hfind; [|done].
    destruct dryRun.
    + erewrite applyChange_dryRun in Hthrow by done. discriminate.
    + destruct (applyChange_executes env _ _ _ _ Hfind)
        as (object & success & s1 & _ & _ & _ & _ & Happly).
      rewrite Happly in Hthrow. discriminate.
Qed.

(** The first part of C6 at the id of scenario B, on a new writer. *)
Lemma applyChange_not_found_only_witness :
  applyChange reliable (js "bogus-id") false (initial ∅)
  = (Throw (js "Change not found: bogus-id"), initial ∅).
Proof.
  apply (applyChange_not_found_only reliable (js "bogus-id") false (initial ∅)).
  intros r Hr. vm_compute in Hr. by apply elem_of_nil in Hr.
Defined.

(** C7.  [modifyFile] and [deleteFile] never throw; when the current
    content of the file cannot be read, they stage a [PENDING] change whose
    original content is the empty text. *)
Theorem staging_survives_unreadable (env : Env) (filePath newContent description : JsString)
    (commandType : CommandType) (reasoning : option JsString) (s : State) (e : JsString) :
  (openTextDocument env filePath s).1 = Throw e →
  (∃ change c s',
     modifyFile env filePath newContent description commandType reasoning s
     = (Return change, s')
     ∧ heap s' !! change = Some c
     ∧ status c = PENDING ∧ originalContent c = [] ∧ changeType c = MODIFY
     ∧ pendingChanges s' = pendingChanges s ++ [change])
  ∧ (∃ change c s',
       deleteFile env filePath description commandType reasoning s
       = (Return change, s')
       ∧ heap s' !! change = Some c
       ∧ status c = PENDING ∧ originalContent c = [] ∧ changeType c = DELETE
       ∧ pendingChanges s' = pendingChanges s ++ [change]).
Proof.
  intros Hthrow.
  assert (Hunreadable : readableAt env s filePath = None).
  { revert Hthrow. unfold openTextDocument, readableAt, mbind, M_bind, tick, get. simpl.
    destruct (fault env (calls s)); [done|]. simpl.
    destruct (files s !! filePath); simpl; [discriminate | done]. }
  split.
  - rewrite modifyFile_runs, Hunreadable. eexists _, _, _. split; [reflexivity|].
    simpl. split; [by rewrite list_lookup_middle|]. done.
  - rewrite deleteFile_runs, Hunreadable. eexists _, _, _. split; [reflexivity|].
    simpl. split; [by rewrite list_lookup_middle|]. done.
Qed.

(** C7 on a workspace without the file. *)
Lemma staging_survives_unreadable_witness :
  ∃ change c s',
    modifyFile reliable (js "/t/missing.ts") (js "new") (js "desc") AI_GENERATED None
               (initial ∅)
    = (Return change, s')
    ∧ heap s' !! change = Some c
    ∧ status c = PENDING ∧ originalContent c = [] ∧ changeType c = MODIFY
    ∧ pendingChanges s' = pendingChanges (initial ∅) ++ [change].
Proof.
  refine (proj1 (staging_survives_unreadable reliable (js "/t/missing.ts") (js "new")
                   (js "desc") AI_GENERATED None (initial ∅) (js "FileNotFound") _)).
  vm_compute. reflexivity.
Defined.

(** The staging operations never throw, whatever the collaborators do. *)
Lemma staging_total (env : Env) filePath newContent description commandType reasoning :
  total (modifyFile env filePath newContent description commandType reasoning)
  ∧ total (deleteFile env filePath description commandType reasoning).
Proof.
  split; intros s.
  - rewrite modifyFile_runs. by eexists.
  - rewrite deleteFile_runs. by eexists.
Qed.

(** C9 at a pending [REPLACE] change that keeps two of ten characters:
    [getChangePreview] reports it as not destructive, while
    [isDestructiveChange] reports the same contents as destructive. *)
Theorem getChangePreview_misses_replace :
  isDestructive <$> getChangePreview (run reliable [CreateChange shortening] (initial ∅))
                                     (changeIdAt reliable 1)
  = Some false
  ∧ isDestructiveChange REPLACE (js "abcdefghij") (js "ab") = true.
Proof. split; vm_compute; reflexivity. Qed.

(** For the other kinds of change the preview follows the stated policy:
    a [DELETE] is destructive, a [MODIFY] is destructive exactly when the
    new content has less than half the length of the original, a [CREATE]
    or an [INSERT] is not. *)
Lemma getChangePreview_policy (s : State) (changeId : JsString) (p : ChangePreview) :
  getChangePreview s changeId = Some p →
  ∃ i r change,
    find (heap s) (pendingChanges s) changeId = Some (i, r)
    ∧ heap s !! r = Some change
    ∧ match changeType change with
      | DELETE => isDestructive p = true
      | MODIFY =>
          isDestructive p = true
          ↔ 2 * length (newContent change) < length (originalContent change)
      | REPLACE | CREATE | INSERT => isDestructive p = false
      end.
Proof.
  unfold getChangePreview.
  destruct (find (heap s) (pendingChanges s) changeId) as [[i r]|] eqn:Hfind; [|done].
  destruct (heap s !! r) as [change|] eqn:Hchange; [|done]. simpl.
  intros [= <-]. exists i, r, change. split_and!; [done..|]. simpl.
  destruct (changeType change); simpl; try done.
  rewrite Nat.ltb_lt. lia.
Qed.

(** C10, as the code has it.  A change that has been applied or cancelled
    is no longer found by [applyChange]: a call with its id throws the error
    of an unknown id and changes nothing, provided no other pending change
    carries the same id. *)
Theorem applyChange_after_resolution (env : Env) (cs : list Call)
    (workspace : gmap JsString JsString) (r : ref) (c : FileChange) (dryRun : bool) :
  heap (run env cs (initial workspace)) !! r = Some c →
  status c = APPLIED ∨ status c = CANCELLED →
  idUniqueInPending (run env cs (initial workspace)) r →
  applyChange env (id c) dryRun (run env cs (initial workspace))
  = (Throw (notFound (id c)), run env cs (initial workspace)).
Proof.
  intros Hc Hs Hunique. apply applyChange_not_found, find_None.
  intros r' Hr' Hid.
  pose proof (Inv_run env cs _ (Inv_initial workspace)) as HI.
  destruct (inv_pending_status _ HI r' Hr') as (c' & Hc' & Hs').
  unfold hasId in Hid. rewrite Hc' in Hid. injection Hid as Hid.
  assert (r' = r) as -> by (eapply Hunique; eauto).
  simplify_eq. destruct Hs, Hs'; congruence.
Qed.

(** C10 after the creation and the application of a file. *)
Lemma applyChange_after_resolution_witness :
  applyChange reliable (changeIdAt reliable 0) false
              (run reliable appliedCreation (initial ∅))
  = (Throw (notFound (changeIdAt reliable 0)), run reliable appliedCreation (initial ∅)).
Proof.
  refine (applyChange_after_resolution reliable appliedCreation ∅ 0
            (mkChange (changeIdAt reliable 0) (js "/t/a.ts") [] (js "const x=1;") CREATE
                      (js "desc") (now reliable 2) APPLIED AI_GENERATED None)
            false _ _ _).
  - vm_compute. reflexivity.
  - left. reflexivity.
  - intros r' c c' _ _ Hr'. vm_compute in Hr'. by apply elem_of_nil in Hr'.
Defined.

(** C10, as stated, fails when two changes carry the same id: after the
    first one has been applied, a call with its id finds the second one,
    which is pending, applies it and returns [true]. *)
Lemma colliding_id_reapplied :
  ¬ statedAfterResolution (colliding [])
      (run (colliding [])
           (collidingCreations ++ [ApplyChange (changeIdAt (colliding []) 0) false])
           (initial ∅)).
Proof.
  intros H.
  specialize (H 0 (mkChange (changeIdAt (colliding []) 0) (js "/t/a.ts") [] (js "A") CREATE
                            (js "first") 0%N APPLIED AI_GENERATED None)
                false ltac:(vm_compute; reflexivity) ltac:(by left)).
  vm_compute in H. discriminate.
Qed.

(** What that call returns and leaves: the second file is written. *)
Example colliding_id_outcome :
  let env := colliding [] in
  let s := run env (collidingCreations ++ [ApplyChange (changeIdAt env 0) false])
               (initial ∅) in
  status <$> heap s = [APPLIED; PENDING]
  ∧ (applyChange env (changeIdAt env 0) false s).1 = Return true
  ∧ files (applyChange env (changeIdAt env 0) false s).2 !! js "/t/b.ts" = Some (js "B").
Proof. vm_compute. split_and!; reflexivity. Qed.

(** **** The batch *)

Section Batch.
Context (env : Env).

Lemma pendingIdsDistinct_resolved s s' r st :
  pendingIdsDistinct s →
  heap s' = alter (withStatus st) r (heap s) →
  (∀ r', r' ∈ pendingChanges s' → r' ∈ pendingChanges s) →
  pendingIdsDistinct s'.
Proof.
  intros Hd Hheap Hsub r1 r2 c1 c2 Hr1 Hr2. rewrite Hheap.
  intros Hc1 Hc2 Hid.
  assert (Hids : ∀ r' c', alter (withStatus st) r (heap s) !! r' = Some c' →
                          ∃ c0, heap s !! r' = Some c0 ∧ id c0 = id c').
  { intros r' c' [[-> (c0 & Hc0 & ->)]|[Hne Hc']]%lookup_alter_status; eauto. }
  destruct (Hids _ _ Hc1) as (d1 & Hd1 & Hid1).
  destruct (Hids _ _ Hc2) as (d2 & Hd2 & Hid2).
  eapply Hd; eauto. congruence.
Qed.

(** One turn of the loop on a change that is pending: the change itself is
    executed, and it ends [APPLIED] or [FAILED]. *)
Lemma applyOne_attempt r t s :
  Inv s → pendingIdsDistinct s → r ∈ pendingChanges s →
  ∃ t' s' i st,
    applyOne env r false t s = (Return t', s')
    ∧ pendingChanges s !! i = Some r
    ∧ (st = APPLIED ∨ st = FAILED)
    ∧ heap s' = alter (withStatus st) r (heap s)
    ∧ (pendingChanges s' = pendingChanges s
       ∨ pendingChanges s' = delete i (pendingChanges s))
    ∧ Inv s'.
Proof.
  intros HI Hd Hr.
  destruct (inv_pending_status s HI r Hr) as (object & Hobj & _).
  destruct (find (heap s) (pendingChanges s) (id object)) as [[i r0]|] eqn:Hfind.
  2: { rewrite find_None in Hfind. destruct (Hfind r Hr). unfold hasId. by rewrite Hobj. }
  pose proof (Inv_applyChange env (id object) false s HI) as HI'.
  destruct (applyChange_executes env _ _ _ _ Hfind)
    as (object' & success & s1 & Hobj' & Hid & Hexec & Hmgr & Happly).
  apply find_Some in Hfind as (Hi & _ & _).
  assert (r0 = r) as ->.
  { eapply Hd; eauto. by eapply list_elem_of_lookup_2. }
  rewrite Happly in HI'. simpl in HI'.
  injection Hmgr as Hheap Hhist Hpend.
  unfold applyOne, tryCatch, deref, mbind, M_bind. rewrite Hobj, Happly.
  destruct success; simpl.
  - eexists _, _, i, APPLIED. split; [reflexivity|]. simpl.
    split_and!; [done|by left|by rewrite Hheap|right; by rewrite Hpend|done].
  - eexists _, _, i, FAILED. split; [reflexivity|]. simpl.
    split_and!; [done|by right|by rewrite Hheap|by left|done].
Qed.

(** The loop over changes that are pending leaves none of them with the
    status [PENDING]. *)
Lemma applyEach_attempts rest t s :
  Inv s → pendingIdsDistinct s → NoDup rest →
  (∀ r, r ∈ rest → r ∈ pendingChanges s) →
  ∃ t' s', applyEach env rest false t s = (Return t', s')
    ∧ ∀ r c, heap s' !! r = Some c → status c = PENDING →
        (r ∉ rest) ∧ ∃ c0, heap s !! r = Some c0 ∧ status c0 = PENDING.
Proof.
  revert t s. induction rest as [|r rest IH]; intros t s HI Hd Hnd Hsub.
  - exists t, s. split; [done|]. intros r c Hc Hs. split; [apply not_elem_of_nil|eauto].
  - apply NoDup_cons in Hnd as [Hnotin Hnd].
    destruct (applyOne_attempt r t s HI Hd) as (t1 & s1 & i & st & H1 & Hi & Hst & Hheap & Hpend & HI1).
    { apply Hsub. left. }
    assert (Hsub1 : ∀ r', r' ∈ rest → r' ∈ pendingChanges s1).
    { intros r' Hr'. assert (r' ∈ pendingChanges s) by (apply Hsub; by right).
      destruct Hpend as [->| ->]; [done|].
      eapply elem_of_delete_index; eauto. by intros ->. }
    assert (Hd1 : pendingIdsDistinct s1).
    { eapply pendingIdsDistinct_resolved; eauto.
      intros r'. destruct Hpend as [->| ->]; [done|]. apply list_elem_of_delete_inv. }
    destruct (IH t1 s1 HI1 Hd1 Hnd Hsub1) as (t' & s' & H' & Hleft).
    exists t', s'. cbn [applyEach]. unfold mbind, M_bind. rewrite H1. split; [done|].
    intros r' c Hc Hs. destruct (Hleft r' c Hc Hs) as (Hr' & c1 & Hc1 & Hs1).
    rewrite Hheap in Hc1.
    apply lookup_alter_status in Hc1 as [[-> (c0 & Hc0 & ->)]|[Hne Hc1]].
    + simpl in Hs1. destruct Hst; congruence.
    + split; [|eauto]. by intros [->|?]%elem_of_cons.
Qed.

End Batch.

(** C3, as the code has it.  [applyAllChanges] returns a tally whose two
    counts add up to the number of changes that were pending; on a writer
    whose pending changes have distinct ids, every one of them is executed,
    so that none keeps the status [PENDING]; in scenario C the tally is two
    successes and one failure, the failed change stays in the pending
    collection with the status [FAILED], and the history holds the two
    applied changes. *)
Theorem applyAllChanges_tally :
  (∀ env dryRun s,
     ∃ t s', applyAllChanges env dryRun s = (Return t, s')
             ∧ successful t + failed t = length (pendingChanges s))
  ∧ (∀ env cs workspace,
       pendingIdsDistinct (run env cs (initial workspace)) →
       ∀ r c, heap (applyAllChanges env false (run env cs (initial workspace))).2 !! r
              = Some c → status c ≠ PENDING)
  ∧ (let env := failingAt [12] in
     let s := run env threeCreations (initial ∅) in
     pendingChanges s = [0; 1; 2]
     ∧ (applyAllChanges env false s).1 = Return (mkTally 2 1)
     ∧ pendingChanges (applyAllChanges env false s).2 = [1]
     ∧ changeHistory (applyAllChanges env false s).2 = [0; 2]
     ∧ status <$> heap (applyAllChanges env false s).2 = [APPLIED; FAILED; APPLIED]).
Proof.
  split_and!.
  - intros env dryRun s. unfold applyAllChanges, mbind, M_bind, get.
    destruct (applyEach_runs env (λ _, True) (pendingChanges s) dryRun (mkTally 0 0) s)
      as (t' & s' & H & Hcount & _); [done|].
    exists t', s'. split; [done|]. simpl in Hcount. lia.
  - intros env cs workspace Hd r c Hc Hs.
    pose proof (Inv_run env cs _ (Inv_initial workspace)) as HI.
    destruct (applyEach_attempts env _ (mkTally 0 0) _ HI Hd (inv_pending_nodup _ HI))
      as (t' & s' & H & Hleft); [done|].
    unfold applyAllChanges, mbind, M_bind, get in Hc. rewrite H in Hc. simpl in Hc.
    destruct (Hleft r c Hc Hs) as (Hnotin & c0 & Hc0 & Hs0).
    apply Hnotin. eapply inv_pending_complete; eauto.
  - vm_compute. split_and!; reflexivity.
Qed.

(** C3, as stated, fails in scenario C: the pending collection is not empty
    afterwards and no record of the history has the status [FAILED]. *)
Lemma failed_change_not_in_history :
  ¬ statedScenarioC
      (applyAllChanges (failingAt [12]) false
         (run (failingAt [12]) threeCreations (initial ∅))).1
      (applyAllChanges (failingAt [12]) false
         (run (failingAt [12]) threeCreations (initial ∅))).2.
Proof. intros (_ & Hpending & _). vm_compute in Hpending. discriminate. Qed.

(** Why C3 asks for distinct ids: the batch resolves every change by its
    id, so of two pending changes with the same id, the first of which
    fails at its first write (call 7), the first one is executed twice and
    the second one is left [PENDING]. *)
Example colliding_batch :
  let env := colliding [7] in
  let s := run env collidingCreations (initial ∅) in
  (applyAllChanges env false s).1 = Return (mkTally 1 1)
  ∧ pendingChanges (applyAllChanges env false s).2 = [1]
  ∧ changeHistory (applyAllChanges env false s).2 = [0]
  ∧ status <$> heap (applyAllChanges env false s).2 = [APPLIED; PENDING].
Proof. vm_compute. split_and!; reflexivity. Qed.

(** **** The round trip of a change: stage, apply, undo *)

Section RoundTrip.
Context (env : Env).

Lemma find_last (h : list FileChange) (l : list ref) (r : ref) changeId :
  (∀ r', r' ∈ l → ¬ hasId h changeId r') → hasId h changeId r →
  find h (l ++ [r]) changeId = Some (length l, r).
Proof.
  intros Hnone Hr. unfold find.
  rewrite list_find_app_r by (by apply list_find_None, Forall_forall).
  cbn. rewrite decide_True by done. done.
Qed.

(** The ids of the objects of [s] are not changed by a new object. *)
Lemma hasId_staged s c changeId r :
  (∃ c', heap s !! r = Some c') →
  hasId (heap s ++ [c]) changeId r ↔ hasId (heap s) changeId r.
Proof.
  intros [c' Hc']. unfold hasId. by rewrite (lookup_app_l_Some _ _ _ _ Hc'), Hc'.
Qed.

(** What a successful [applyChange] of a change just staged, with a fresh
    id, leaves behind. *)
Lemma staged_applied s c n s2 :
  Inv s → freshId s (id c) →
  applyChange env (id c) false (staged s c n) = (Return true, s2) →
  ∃ s' i,
    executeChange env c (staged s c n) = (Return true, s')
    ∧ files s2 = files s' ∧ calls s2 = calls s'
    ∧ find (heap s2) (changeHistory s2) (id c) = Some (i, length (heap s))
    ∧ heap s2 !! length (heap s) = Some (withStatus APPLIED c).
Proof.
  intros HI Hfresh Happly.
  assert (Hnew : (heap s ++ [c]) !! length (heap s) = Some c) by (by apply list_lookup_middle).
  assert (Hfind : find (heap (staged s c n)) (pendingChanges (staged s c n)) (id c)
                  = Some (length (pendingChanges s), length (heap s))).
  { simpl. apply find_last; [|unfold hasId; by rewrite Hnew].
    intros r Hr. rewrite hasId_staged.
    - apply Hfresh. apply elem_of_app. by left.
    - destruct (inv_pending_status s HI r Hr) as (c' & Hc' & _). eauto. }
  destruct (applyChange_executes env _ _ _ _ Hfind)
    as (object & success & s' & Hobj & _ & Hexec & Hmgr & Hrun).
  simpl in Hobj. rewrite Hnew in Hobj. injection Hobj as <-.
  rewrite Hrun in Happly. injection Happly as -> <-.
  injection Hmgr as Hheap Hhist Hpend.
  set (k := length (changeHistory s ++ [length (heap s)]) - maxHistorySize).
  assert (Hhistory : ∃ i, find (heap s ++ [c]) (trimHistory (changeHistory s ++ [length (heap s)]))
                              (id c) = Some (i, length (heap s))).
  { assert (Hold : ∀ r, r ∈ changeHistory s → ¬ hasId (heap s ++ [c]) (id c) r).
    { intros r Hr. rewrite hasId_staged.
      - apply Hfresh. apply elem_of_app. by right.
      - destruct (inv_history_status s HI r Hr) as (c' & Hc' & _). eauto. }
    unfold trimHistory. case_decide.
    - rewrite drop_app_le by (rewrite length_app; simpl; unfold maxHistorySize; lia).
      eexists. apply find_last; [|unfold hasId; by rewrite Hnew].
      intros r Hr. apply Hold. eapply elem_of_sublist; [done | apply sublist_drop].
    - eexists. apply find_last; [done|unfold hasId; by rewrite Hnew]. }
  destruct Hhistory as [i Hi].
  exists s', i. split_and!; [done|done|done| |].
  - simpl. by rewrite find_alter, Hheap, Hhist.
  - simpl. by rewrite Hheap, list_lookup_alter_eq, Hnew.
Qed.

(** A successful execution of a change that writes its new content. *)
Lemma executeChange_written change s s' :
  changeType change = CREATE ∨ changeType change = MODIFY →
  executeChange env change s = (Return true, s') →
  files s' = <[filePath change := toWellFormed (newContent change)]> (files s).
Proof.
  intros Htype. unfold executeChange, tryCatch, writeFileContent, fs_createDirectory,
    fs_writeFile, mbind, M_bind, tick, update, throw.
  destruct Htype as [-> | ->]; simpl;
    destruct (fault env (calls s)); simpl; try discriminate;
    destruct (fault env (S (calls s))); simpl; try discriminate;
    by intros [= <-].
Qed.

Lemma openTextDocument_readable path s original :
  (openTextDocument env path s).1 = Return original →
  readableAt env s path = Some original.
Proof.
  unfold openTextDocument, readableAt, mbind, M_bind, tick, get. simpl.
  destruct (fault env (calls s)); [done|]. simpl.
  destruct (files s !! path); simpl; [|done]. by intros [= ->].
Qed.

(** A text that was read has no lone surrogate: encoding it for a write
    changes nothing. *)
Lemma readableAt_wellFormed path s original :
  readableAt env s path = Some original → toWellFormed original = original.
Proof.
  unfold readableAt. destruct (fault env (calls s)); [done|].
  destruct (files s !! path) as [content|]; simpl; [|done].
  intros [= <-]. apply toWellFormed_idemp.
Qed.

End RoundTrip.

(** C2, as the code has it.  A creation that is staged with a fresh id and
    applied with success, then undone while the deletion of the
    file-access collaborator does not fail, leaves no file at the path; a
    modification of a file whose content was readable at staging, staged
    with a fresh id and applied with success, then undone while the two
    calls of the rewriting do not fail, leaves the original content at the
    path. *)
Theorem undo_round_trip :
  (∀ env s filePath content description commandType reasoning change c s1 s2,
     Inv s →
     createFile env filePath content description commandType reasoning s
     = (Return change, s1) →
     heap s1 !! change = Some c →
     freshId s (id c) →
     applyChange env (id c) false s1 = (Return true, s2) →
     unhindered env (calls s2) 1 →
     files (undoChange env (id c) s2).2 !! filePath = None)
  ∧ (∀ env s filePath newContent description commandType reasoning original
       change c s1 s2,
       Inv s →
       (openTextDocument env filePath s).1 = Return original →
       modifyFile env filePath newContent description commandType reasoning s
       = (Return change, s1) →
       heap s1 !! change = Some c →
       freshId s (id c) →
       applyChange env (id c) false s1 = (Return true, s2) →
       unhindered env (calls s2) 2 →
       files (undoChange env (id c) s2).2 !! filePath = Some original).
Proof.
  split.
  - intros env s filePath content description commandType reasoning change c s1 s2
      HI Hcreate Hc Hfresh Happly Hquiet.
    rewrite createFile_runs in Hcreate. injection Hcreate as <- <-.
    simpl in Hc. rewrite list_lookup_middle in Hc by done. injection Hc as <-.
    destruct (staged_applied env _ _ _ _ HI Hfresh Happly)
      as (s' & i & Hexec & Hfiles & Hcalls & Hfind & Hobj).
    apply executeChange_written in Hexec; [|by left]. simpl in Hexec.
    pose proof (Hquiet 0 ltac:(lia)) as Hq. rewrite Nat.add_0_r in Hq.
    unfold undoChange, mbind at 1, M_bind at 1, get. rewrite Hfind.
    unfold mbind at 1, M_bind at 1, deref. rewrite Hobj. simpl.
    unfold tryCatch, deleteFilePhysically, tryCatch, fs_delete, mbind, M_bind, tick,
      get, update. simpl. rewrite Hq. simpl.
    rewrite Hfiles, Hexec, lookup_insert_eq. simpl. apply lookup_delete_eq.
  - intros env s filePath newContent description commandType reasoning original
      change c s1 s2 HI Hread Hmodify Hc Hfresh Happly Hquiet.
    apply openTextDocument_readable in Hread.
    rewrite modifyFile_runs, Hread in Hmodify. injection Hmodify as <- <-.
    simpl in Hc. rewrite list_lookup_middle in Hc by done. injection Hc as <-.
    destruct (staged_applied env _ _ _ _ HI Hfresh Happly)
      as (s' & i & Hexec & Hfiles & Hcalls & Hfind & Hobj).
    pose proof (Hquiet 0 ltac:(lia)) as Hq0. rewrite Nat.add_0_r in Hq0.
    pose proof (Hquiet 1 ltac:(lia)) as Hq1. rewrite Nat.add_1_r in Hq1.
    unfold undoChange, mbind at 1, M_bind at 1, get. rewrite Hfind.
    unfold mbind at 1, M_bind at 1, deref. rewrite Hobj. simpl.
    unfold tryCatch, writeFileContent, fs_createDirectory, fs_writeFile, mbind, M_bind,
      tick, update. simpl. rewrite Hq0. simpl. rewrite Hq1. simpl.
    unfold TextEncoder_encode. rewrite (readableAt_wellFormed env _ _ _ Hread).
    apply lookup_insert_eq.
Qed.

(** C2, as stated, fails: when the deletion fails during [undoChange], the
    created file stays. *)
Lemma failed_undo_keeps_file :
  ¬ statedCreateRoundTrip (failingAt [5]) (initial ∅) (js "/t/a.ts") (js "const x=1;").
Proof.
  intros H.
  specialize (H (js "desc") AI_GENERATED None _ _ _
                (applyChange (failingAt [5]) (changeIdAt (failingAt [5]) 0) false
                   (createFile (failingAt [5]) (js "/t/a.ts") (js "const x=1;") (js "desc")
                      AI_GENERATED None (initial ∅)).2).2
                (createFile_runs _ _ _ _ _ _ _) eq_refl).
  simpl id in H. specialize (H ltac:(vm_compute; reflexivity)).
  vm_compute in H. discriminate.
Qed.

(** What the failed undo returns and leaves. *)
Example failed_undo_outcome :
  let env := failingAt [5] in
  let s := run env [CreateFile (js "/t/a.ts") (js "const x=1;") (js "desc") AI_GENERATED None;
                    ApplyChange (changeIdAt env 0) false] (initial ∅) in
  status <$> heap s = [APPLIED]
  ∧ (undoChange env (changeIdAt env 0) s).1 = Return (Some false)
  ∧ files (undoChange env (changeIdAt env 0) s).2 !! js "/t/a.ts" = Some (js "const x=1;").
Proof. vm_compute. split_and!; reflexivity. Qed.

(** C2 on a new writer: a file is created, applied and undone; and on a
    workspace with one file: the file is modified, applied and undone. *)
Lemma undo_round_trip_witness :
  files (undoChange reliable (changeIdAt reliable 0)
           (run reliable appliedCreation (initial ∅))).2 !! js "/t/a.ts" = None
  ∧ files (undoChange reliable (changeIdAt reliable 1)
             (run reliable appliedModification (initial oneFile))).2 !! js "/t/a.ts"
    = Some (js "old").
Proof.
  split.
  - refine (proj1 undo_round_trip reliable (initial ∅) (js "/t/a.ts") (js "const x=1;")
              (js "desc") AI_GENERATED None 0
              (mkChange (changeIdAt reliable 0) (js "/t/a.ts") [] (js "const x=1;") CREATE
                        (js "desc") (now reliable 2) PENDING AI_GENERATED None)
              _ _ (Inv_initial ∅) (createFile_runs _ _ _ _ _ _ _) eq_refl _ _ _).
    + intros r Hr. vm_compute in Hr. by apply elem_of_nil in Hr.
    + vm_compute. reflexivity.
    + intros j Hj. reflexivity.
  - refine (proj2 undo_round_trip reliable (initial oneFile) (js "/t/a.ts") (js "new")
              (js "desc") AI_GENERATED None (js "old") 0
              (mkChange (changeIdAt reliable 1) (js "/t/a.ts") (js "old") (js "new") MODIFY
                        (js "desc") (now reliable 3) PENDING AI_GENERATED None)
              _ _ (Inv_initial oneFile) _ _ _ _ _ _).
    + vm_compute. reflexivity.
    + vm_compute. reflexivity.
    + vm_compute. reflexivity.
    + intros r Hr. vm_compute in Hr. by apply elem_of_nil in Hr.
    + vm_compute. reflexivity.
    + intros j Hj. reflexivity.
Defined.

(** C3 on the three creations of scenario C, whose ids differ. *)
Lemma applyAllChanges_tally_witness :
  Forall (λ c, status c ≠ PENDING)
         (heap (applyAllChanges reliable false
                  (run reliable threeCreations (initial ∅))).2).
Proof.
  apply Forall_lookup_2.
  refine (proj1 (proj2 applyAllChanges_tally) reliable threeCreations ∅ _).
  intros r r' c c' Hr Hr'. vm_compute in Hr, Hr'.
  repeat (apply elem_of_cons in Hr as [->|Hr]);
    repeat (apply elem_of_cons in Hr' as [->|Hr']);
    try (by apply elem_of_nil in Hr); try (by apply elem_of_nil in Hr');
    try done; vm_compute; intros [= <-] [= <-]; discriminate.
Defined.

End FileWriterFacts.

(* ===================================================================== *)
(** ** Further properties of the change manager *)
(* ===================================================================== *)

Module FileWriterRestFacts.
Import Js FileWriter FileWriterRest FileWriterFacts.

(** Unfolding of the calls of the file system, and the cases of their
    outcomes. *)
Ltac run_fs :=
  unfold executeChange, writeFileContent, deleteFilePhysically, fs_createDirectory,
    fs_writeFile, fs_delete, openTextDocument, tryCatch, mbind, M_bind, mret, M_ret,
    tick, update, get, throw; simpl.

Ltac fs_cases :=
  repeat (simpl;
          match goal with
          | |- context [match fault ?e ?n with _ => _ end] => destruct (fault e n) eqn:?
          | |- context [match files ?s !! ?p with _ => _ end] =>
              destruct (files s !! p) eqn:?
          end).

Section Execution.
Context (env : Env).

(** An execution that fails has written nothing. *)
Lemma executeChange_failed_files change s s' :
  executeChange env change s = (Return false, s') → files s' = files s.
Proof.
  run_fs. destruct (changeType change); fs_cases; simpl; intros [= <-]; done.
Qed.

(** A successful execution of a change that writes has left the new
    content at the path and nothing else. *)
Lemma executeChange_succeeded_files change s s' :
  changeType change ≠ DELETE → changeType change ≠ INSERT →
  executeChange env change s = (Return true, s') →
  files s' = <[filePath change := toWellFormed (newContent change)]> (files s).
Proof.
  intros Hd Hi. run_fs. destruct (changeType change); try done;
    fs_cases; simpl; intros [= <-]; done.
Qed.

(** The execution of a change that writes, when the two calls of the file
    system do not fail. *)
Lemma executeChange_unhindered change s :
  changeType change ≠ DELETE → changeType change ≠ INSERT →
  unhindered env (calls s) 2 →
  executeChange env change s
  = (Return true, mkState (heap s) (changeHistory s) (pendingChanges s)
                          (<[filePath change := toWellFormed (newContent change)]> (files s))
                          (2 + calls s)).
Proof.
  intros Hd Hi Hq.
  pose proof (Hq 0 ltac:(lia)) as Hq0. rewrite Nat.add_0_r in Hq0.
  pose proof (Hq 1 ltac:(lia)) as Hq1. rewrite Nat.add_1_r in Hq1.
  run_fs. destruct (changeType change); try done; rewrite Hq0; simpl; rewrite Hq1; done.
Qed.

(** The execution of a deletion returns [true] whatever the file system
    does. *)
Lemma executeChange_delete change s :
  changeType change = DELETE →
  executeChange env change s
  = (Return true,
     mkState (heap s) (changeHistory s) (pendingChanges s)
             (match fault env (calls s), files s !! filePath change with
              | None, Some _ => delete (filePath change) (files s)
              | _, _ => files s
              end)
             (1 + calls s)).
Proof.
  intros Ht. run_fs. rewrite Ht. fs_cases; destruct s; done.
Qed.

End Execution.

(** The history after one more change, when it held at most
    [maxHistorySize] changes: the oldest one leaves when it was full. *)
Lemma trimHistory_push (h : list ref) (r : ref) :
  length h ≤ maxHistorySize →
  trimHistory (h ++ [r])
  = (if decide (length h = maxHistorySize) then drop 1 h else h) ++ [r].
Proof.
  intros Hb. unfold trimHistory. rewrite length_app. simpl.
  destruct (decide (length h = maxHistorySize)) as [Hfull|Hroom].
  - rewrite decide_True by lia. rewrite Hfull.
    replace (maxHistorySize + 1 - maxHistorySize) with 1 by lia.
    apply drop_app_le. unfold maxHistorySize in *. lia.
  - rewrite decide_False by lia. done.
Qed.

(** X1.  A dry run of the batch, on any writer reached from a new one,
    counts every pending change as successful and changes nothing: no file,
    no status, no collection, and no call of the file system, the clock or
    the generator is made. *)
Theorem applyAllChanges_dryRun (env : Env) (cs : list Call)
    (workspace : gmap JsString JsString) :
  applyAllChanges env true (run env cs (initial workspace))
  = (Return (mkTally (length (pendingChanges (run env cs (initial workspace)))) 0),
     run env cs (initial workspace)).
Proof.
  pose proof (Inv_run env cs _ (Inv_initial workspace)) as HI.
  set (s := run env cs (initial workspace)) in *.
  assert (Hloop : ∀ changes t,
            (∀ r, r ∈ changes → r ∈ pendingChanges s) →
            applyEach env changes true t s
            = (Return (mkTally (length changes + successful t) (failed t)), s)).
  { induction changes as [|r changes IH]; intros t Hsub; simpl.
    - by destruct t.
    - assert (Hr : r ∈ pendingChanges s) by (apply Hsub; left).
      destruct (inv_pending_status s HI r Hr) as (object & Hobj & _).
      destruct (find (heap s) (pendingChanges s) (id object)) as [[i r0]|] eqn:Hfind.
      2: { rewrite find_None in Hfind. destruct (Hfind r Hr). unfold hasId. by rewrite Hobj. }
      unfold mbind at 1, M_bind at 1, applyOne, tryCatch, deref.
      unfold mbind at 1, M_bind at 1. rewrite Hobj.
      unfold mbind at 1, M_bind at 1. rewrite (applyChange_dryRun env _ _ _ _ Hfind).
      simpl. rewrite IH by (intros r' Hr'; apply Hsub; by right).
      simpl. do 3 f_equal. lia. }
  unfold applyAllChanges, mbind, M_bind, get. rewrite Hloop by done.
  simpl. by rewrite Nat.add_0_r.
Qed.

(** X2.  [applyChange] of a pending change that creates, modifies or
    replaces a file either returns [true] and has left at the path exactly
    the new content as the encoder writes it (a lone surrogate become
    U+FFFD), every other file as it was, or returns [false] and has left
    every file as it was. *)
Theorem applyChange_writes_or_nothing (env : Env) (changeId : JsString) (s s' : State)
    (i : nat) (r : ref) (change : FileChange) (success : bool) :
  find (heap s) (pendingChanges s) changeId = Some (i, r) →
  heap s !! r = Some change →
  changeType change ≠ DELETE → changeType change ≠ INSERT →
  applyChange env changeId false s = (Return success, s') →
  files s' = if success then <[filePath change := toWellFormed (newContent change)]> (files s)
             else files s.
Proof.
  intros Hfind Hchange Hd Hi Happly.
  destruct (applyChange_executes env _ _ _ _ Hfind)
    as (object & success0 & s1 & Hobj & _ & Hexec & _ & Hrun).
  rewrite Hchange in Hobj. injection Hobj as <-.
  rewrite Hrun in Happly. injection Happly as <- <-.
  destruct success0; simpl.
  - by eapply executeChange_succeeded_files.
  - by eapply executeChange_failed_files.
Qed.

(** X2 on the creation whose write fails. *)
Lemma applyChange_writes_or_nothing_witness :
  files (run (failingAt [4]) failedCreation (initial ∅)) = ∅.
Proof.
  refine (applyChange_writes_or_nothing (failingAt [4]) (changeIdAt (failingAt [4]) 0)
            (run (failingAt [4]) [CreateFile (js "/t/a.ts") (js "const x=1;") (js "desc")
                                    AI_GENERATED None] (initial ∅))
            _ 0 0
            (mkChange (changeIdAt (failingAt [4]) 0) (js "/t/a.ts") [] (js "const x=1;")
                      CREATE (js "desc") 2%N PENDING AI_GENERATED None)
            false _ _ _ _ _).
  - vm_compute. reflexivity.
  - vm_compute. reflexivity.
  - discriminate.
  - discriminate.
  - vm_compute. reflexivity.
Defined.

(** X3.  [applyChange] of a pending deletion always returns [true] and
    marks the change [APPLIED]: when the file is absent or its deletion
    fails, the failure is swallowed by [deleteFilePhysically] and the files
    stay as they were. *)
Theorem applyChange_delete_reports_success (env : Env) (changeId : JsString) (s : State)
    (i : nat) (r : ref) (change : FileChange) :
  find (heap s) (pendingChanges s) changeId = Some (i, r) →
  heap s !! r = Some change →
  changeType change = DELETE →
  ∃ s', applyChange env changeId false s = (Return true, s')
        ∧ status <$> heap s' !! r = Some APPLIED
        ∧ files s' = match fault env (calls s), files s !! filePath change with
                     | None, Some _ => delete (filePath change) (files s)
                     | _, _ => files s
                     end.
Proof.
  intros Hfind Hchange Htype.
  destruct (applyChange_executes env _ _ _ _ Hfind)
    as (object & success & s1 & Hobj & _ & Hexec & _ & Hrun).
  rewrite Hchange in Hobj. injection Hobj as <-.
  rewrite (executeChange_delete env _ _ Htype) in Hexec. injection Hexec as <- <-.
  eexists. split; [exact Hrun|]. simpl. split; [|done].
  by rewrite list_lookup_alter_eq, Hchange.
Qed.

(** X3 on the deletion of a file that does not exist. *)
Lemma applyChange_delete_reports_success_witness :
  ∃ s', applyChange reliable (changeIdAt reliable 1) false
          (run reliable [DeleteFile (js "/t/none.ts") (js "desc") AI_GENERATED None]
               (initial ∅))
        = (Return true, s')
        ∧ status <$> heap s' !! 0 = Some APPLIED
        ∧ files s' = ∅.
Proof.
  refine (applyChange_delete_reports_success reliable (changeIdAt reliable 1)
            (run reliable [DeleteFile (js "/t/none.ts") (js "desc") AI_GENERATED None]
                 (initial ∅))
            0 0
            (mkChange (changeIdAt reliable 1) (js "/t/none.ts") [] [] DELETE (js "desc")
                      3%N PENDING AI_GENERATED None) _ _ _).
  - vm_compute. reflexivity.
  - vm_compute. reflexivity.
  - reflexivity.
Defined.

(** X4.  The history is a bounded queue: it never holds more than 100
    changes, and a successful [applyChange] removes the change from the
    pending collection and appends it to the history, from which the oldest
    change leaves when 100 were held. *)
Theorem history_bounded_queue (env : Env) (cs : list Call)
    (workspace : gmap JsString JsString) :
  length (changeHistory (run env cs (initial workspace))) ≤ 100
  ∧ ∀ changeId i r s',
      find (heap (run env cs (initial workspace)))
           (pendingChanges (run env cs (initial workspace))) changeId = Some (i, r) →
      applyChange env changeId false (run env cs (initial workspace)) = (Return true, s') →
      changeHistory s'
      = (if decide (length (changeHistory (run env cs (initial workspace))) = 100)
         then drop 1 (changeHistory (run env cs (initial workspace)))
         else changeHistory (run env cs (initial workspace))) ++ [r]
      ∧ pendingChanges s' = delete i (pendingChanges (run env cs (initial workspace))).
Proof.
  pose proof (Inv_run env cs _ (Inv_initial workspace)) as HI.
  set (s := run env cs (initial workspace)) in *.
  pose proof (inv_history_bound s HI) as Hb. split; [exact Hb|].
  intros changeId i r s' Hfind Happly.
  destruct (applyChange_executes env _ _ _ _ Hfind)
    as (object & success & s1 & _ & _ & _ & Hmgr & Hrun).
  rewrite Hrun in Happly. injection Happly as -> <-.
  injection Hmgr as _ Hhist Hpend. simpl. rewrite Hhist, Hpend.
  split; [|done]. by apply trimHistory_push.
Qed.

(** X4 on the applied creation: the change is the only one of the
    history and no change is pending. *)
Lemma history_bounded_queue_witness :
  changeHistory (run reliable appliedCreation (initial ∅)) = [0]
  ∧ pendingChanges (run reliable appliedCreation (initial ∅)) = [].
Proof.
  refine (proj2 (history_bounded_queue reliable
                   [CreateFile (js "/t/a.ts") (js "const x=1;") (js "desc") AI_GENERATED None]
                   ∅)
                (changeIdAt reliable 0) 0 0 _ _ _).
  - vm_compute. reflexivity.
  - vm_compute. reflexivity.
Defined.

(** X5.  A pending change that creates, modifies or replaces a file is
    applied with success whenever the two calls of the file system do not
    fail, also when an earlier application of it had failed: the call
    returns [true], the file holds the new content as the encoder writes it
    (a lone surrogate become U+FFFD), and the change is [APPLIED], in the
    history and no longer pending. *)
Theorem applyChange_succeeds_unhindered (env : Env) (cs : list Call)
    (workspace : gmap JsString JsString) (changeId : JsString) (i : nat) (r : ref)
    (change : FileChange) :
  find (heap (run env cs (initial workspace)))
       (pendingChanges (run env cs (initial workspace))) changeId = Some (i, r) →
  heap (run env cs (initial workspace)) !! r = Some change →
  changeType change ≠ DELETE → changeType change ≠ INSERT →
  unhindered env (calls (run env cs (initial workspace))) 2 →
  ∃ s', applyChange env changeId false (run env cs (initial workspace)) = (Return true, s')
        ∧ files s' !! filePath change = Some (toWellFormed (newContent change))
        ∧ status <$> heap s' !! r = Some APPLIED
        ∧ r ∈ changeHistory s' ∧ r ∉ pendingChanges s'.
Proof.
  pose proof (Inv_run env cs _ (Inv_initial workspace)) as HI.
  set (s := run env cs (initial workspace)) in *.
  intros Hfind Hchange Hd Hi Hq.
  destruct (applyChange_executes env _ _ _ _ Hfind)
    as (object & success & s1 & Hobj & _ & Hexec & _ & Hrun).
  rewrite Hchange in Hobj. injection Hobj as <-.
  rewrite (executeChange_unhindered env _ _ Hd Hi Hq) in Hexec. injection Hexec as <- <-.
  apply find_Some in Hfind as (Hlookup & _ & _).
  eexists. split; [exact Hrun|]. simpl. split_and!.
  - apply lookup_insert_eq.
  - by rewrite list_lookup_alter_eq, Hchange.
  - rewrite trimHistory_push by apply (inv_history_bound s HI).
    apply elem_of_app. right. by apply list_elem_of_singleton.
  - apply not_elem_of_delete_index; [apply (inv_pending_nodup s HI) | done].
Qed.

(** X5 on the creation whose first application failed: the second one
    succeeds. *)
Lemma applyChange_succeeds_unhindered_witness :
  ∃ s', applyChange (failingAt [4]) (changeIdAt (failingAt [4]) 0) false
          (run (failingAt [4]) failedCreation (initial ∅))
        = (Return true, s')
        ∧ files s' !! js "/t/a.ts" = Some (js "const x=1;")
        ∧ status <$> heap s' !! 0 = Some APPLIED
        ∧ 0 ∈ changeHistory s' ∧ 0 ∉ pendingChanges s'.
Proof.
  refine (applyChange_succeeds_unhindered (failingAt [4]) failedCreation ∅
            (changeIdAt (failingAt [4]) 0) 0 0
            (mkChange (changeIdAt (failingAt [4]) 0) (js "/t/a.ts") [] (js "const x=1;")
                      CREATE (js "desc") 2%N FAILED AI_GENERATED None) _ _ _ _ _).
  - vm_compute. reflexivity.
  - vm_compute. reflexivity.
  - discriminate.
  - discriminate.
  - intros j Hj. vm_compute.
    destruct j as [|[|j]]; [reflexivity | reflexivity | lia].
Defined.

(** **** Undoing *)

Section Undo.
Context (env : Env).

(** [undoChange] of an applied change of the history is the [try] block
    of its type. *)
Lemma undoChange_found changeId i r c s :
  find (heap s) (changeHistory s) changeId = Some (i, r) →
  heap s !! r = Some c → status c = APPLIED →
  undoChange env changeId s
  = tryCatch
      (match changeType c with
       | CREATE => success ← deleteFilePhysically env (filePath c); mret (Some success)
       | MODIFY => writeFileContent env (filePath c) (originalContent c);; mret None
       | DELETE => writeFileContent env (filePath c) (originalContent c);; mret None
       | _ => mret (Some false)
       end)
      (λ _, mret (Some false)) s.
Proof.
  intros Hfind Hc Hs. unfold undoChange, mbind at 1, M_bind at 1, get. rewrite Hfind.
  unfold mbind at 1, M_bind at 1, deref. rewrite Hc.
  rewrite decide_False by (intros Hne; by apply Hne). done.
Qed.

(** [undoChange] of an applied creation. *)
Lemma undoChange_create changeId i r c s :
  find (heap s) (changeHistory s) changeId = Some (i, r) →
  heap s !! r = Some c → status c = APPLIED → changeType c = CREATE →
  undoChange env changeId s
  = match fault env (calls s), files s !! filePath c with
    | None, Some _ =>
        (Return (Some true),
         mkState (heap s) (changeHistory s) (pendingChanges s)
                 (delete (filePath c) (files s)) (1 + calls s))
    | _, _ =>
        (Return (Some false),
         mkState (heap s) (changeHistory s) (pendingChanges s) (files s) (1 + calls s))
    end.
Proof.
  intros Hfind Hc Hs Ht. rewrite (undoChange_found _ _ _ _ _ Hfind Hc Hs), Ht.
  run_fs. fs_cases; done.
Qed.

(** [undoChange] returns [true] only for an applied creation whose file
    it has deleted. *)
Lemma undoChange_true_create changeId s s' :
  undoChange env changeId s = (Return (Some true), s') →
  ∃ i r c, find (heap s) (changeHistory s) changeId = Some (i, r)
           ∧ heap s !! r = Some c ∧ status c = APPLIED ∧ changeType c = CREATE
           ∧ is_Some (files s !! filePath c)
           ∧ s' = mkState (heap s) (changeHistory s) (pendingChanges s)
                          (delete (filePath c) (files s)) (1 + calls s).
Proof.
  intros Hundo.
  destruct (find (heap s) (changeHistory s) changeId) as [[i r]|] eqn:Hfind.
  2: { unfold undoChange, mbind, M_bind, get in Hundo. by rewrite Hfind in Hundo. }
  destruct (find_Some _ _ _ _ _ Hfind) as (_ & (c & Hc & _) & _).
  destruct (decide (status c = APPLIED)) as [Hs|Hs].
  2: { unfold undoChange, mbind at 1, M_bind at 1, get in Hundo. rewrite Hfind in Hundo.
       unfold mbind at 1, M_bind at 1, deref in Hundo. rewrite Hc in Hundo.
       by rewrite decide_True in Hundo by done. }
  destruct (changeType c) eqn:Ht.
  - rewrite (undoChange_create _ _ _ _ _ Hfind Hc Hs Ht) in Hundo.
    destruct (fault env (calls s)) eqn:Hf; [done|].
    destruct (files s !! filePath c) eqn:Hfile; [|done].
    injection Hundo as <-. exists i, r, c. split_and!; try done.
  - rewrite (undoChange_found _ _ _ _ _ Hfind Hc Hs), Ht in Hundo. discriminate Hundo.
  - rewrite (undoChange_found _ _ _ _ _ Hfind Hc Hs), Ht in Hundo. discriminate Hundo.
  - rewrite (undoChange_found _ _ _ _ _ Hfind Hc Hs), Ht in Hundo.
    revert Hundo. run_fs. fs_cases; done.
  - rewrite (undoChange_found _ _ _ _ _ Hfind Hc Hs), Ht in Hundo.
    revert Hundo. run_fs. fs_cases; done.
Qed.

(** The change that [find] returns for the id of a change just staged
    with a fresh id. *)
Lemma find_staged s c n :
  Inv s → freshId s (id c) →
  find (heap (staged s c n)) (pendingChanges (staged s c n)) (id c)
  = Some (length (pendingChanges s), length (heap s)).
Proof.
  intros HI Hfresh. simpl. apply find_last.
  - intros r Hr. rewrite hasId_staged.
    + apply Hfresh. apply elem_of_app. by left.
    + destruct (inv_pending_status s HI r Hr) as (c' & Hc' & _). eauto.
  - unfold hasId. by rewrite list_lookup_middle.
Qed.

End Undo.

(** X6.  [undoChange] of an applied modification or deletion of the
    history, when the two calls of the rewriting do not fail, writes the
    recorded original content at the path, as the encoder writes it (a lone
    surrogate become U+FFFD), and returns [undefined], not [true]; the
    record keeps its status and its place in the history. *)
Theorem undoChange_restores (env : Env) (changeId : JsString) (s : State) (i : nat)
    (r : ref) (c : FileChange) :
  find (heap s) (changeHistory s) changeId = Some (i, r) →
  heap s !! r = Some c → status c = APPLIED →
  changeType c = MODIFY ∨ changeType c = DELETE →
  unhindered env (calls s) 2 →
  ∃ s', undoChange env changeId s = (Return None, s')
        ∧ files s' = <[filePath c := toWellFormed (originalContent c)]> (files s)
        ∧ manager s' = manager s.
Proof.
  intros Hfind Hc Hs Ht Hq.
  pose proof (Hq 0 ltac:(lia)) as Hq0. rewrite Nat.add_0_r in Hq0.
  pose proof (Hq 1 ltac:(lia)) as Hq1. rewrite Nat.add_1_r in Hq1.
  rewrite (undoChange_found env _ _ _ _ _ Hfind Hc Hs).
  destruct Ht as [-> | ->]; run_fs; rewrite Hq0; simpl; rewrite Hq1; simpl;
    eexists; split_and!; reflexivity.
Qed.

(** X6 on the applied modification of the workspace with one file. *)
Lemma undoChange_restores_witness :
  ∃ s', undoChange reliable (changeIdAt reliable 1)
          (run reliable appliedModification (initial oneFile))
        = (Return None, s')
        ∧ files s' = <[js "/t/a.ts" := js "old"]> {[ js "/t/a.ts" := js "new" ]}
        ∧ manager s' = manager (run reliable appliedModification (initial oneFile)).
Proof.
  refine (undoChange_restores reliable (changeIdAt reliable 1)
            (run reliable appliedModification (initial oneFile)) 0 0
            (mkChange (changeIdAt reliable 1) (js "/t/a.ts") (js "old") (js "new") MODIFY
                      (js "desc") 3%N APPLIED AI_GENERATED None) _ _ _ _ _).
  - vm_compute. reflexivity.
  - vm_compute. reflexivity.
  - reflexivity.
  - by left.
  - intros j Hj. reflexivity.
Defined.

(** X7.  The round trip of a deletion: when the content of the file was
    readable at staging and the id of the new change is fresh, [applyChange]
    returns [true], and [undoChange], when the two calls of its rewriting do
    not fail, leaves the original content at the path. *)
Theorem delete_round_trip (env : Env) (s : State) (filePath description : JsString)
    (commandType : CommandType) (reasoning : option JsString) (original : JsString)
    (change : ref) (c : FileChange) (s1 : State) :
  Inv s →
  (openTextDocument env filePath s).1 = Return original →
  deleteFile env filePath description commandType reasoning s = (Return change, s1) →
  heap s1 !! change = Some c →
  freshId s (id c) →
  unhindered env (calls (applyChange env (id c) false s1).2) 2 →
  (applyChange env (id c) false s1).1 = Return true
  ∧ files (undoChange env (id c) (applyChange env (id c) false s1).2).2 !! filePath
    = Some original.
Proof.
  intros HI Hread Hdelete Hc Hfresh.
  apply openTextDocument_readable in Hread.
  rewrite deleteFile_runs, Hread in Hdelete. injection Hdelete as <- <-.
  simpl in Hc. rewrite list_lookup_middle in Hc by done. injection Hc as <-.
  pose proof (find_staged _ _ (S (S (S (S (calls s))))) HI Hfresh) as Hfind.
  destruct (applyChange_executes env _ _ _ _ Hfind)
    as (object & success & s' & Hobj & _ & Hexec & _ & Happly).
  simpl in Hobj. rewrite list_lookup_middle in Hobj by done. injection Hobj as <-.
  rewrite executeChange_delete in Hexec by done. injection Hexec as <- _.
  destruct (staged_applied env _ _ _ _ HI Hfresh Happly)
    as (s'' & i & _ & _ & _ & Hfind2 & Hobj).
  rewrite Happly. cbn [fst snd]. intros Hq. split; [done|].
  pose proof (Hq 0 ltac:(lia)) as Hq0. rewrite Nat.add_0_r in Hq0.
  pose proof (Hq 1 ltac:(lia)) as Hq1. rewrite Nat.add_1_r in Hq1.
  rewrite (undoChange_found env _ _ _ _ _ Hfind2 Hobj eq_refl).
  run_fs. simpl in Hq0, Hq1. rewrite Hq0. simpl. rewrite Hq1. simpl.
  unfold TextEncoder_encode. rewrite (readableAt_wellFormed env _ _ _ Hread).
  apply lookup_insert_eq.
Qed.

(** X7 on a workspace with one file. *)
Lemma delete_round_trip_witness :
  (applyChange reliable (changeIdAt reliable 1) false
     (run reliable [DeleteFile (js "/t/a.ts") (js "desc") AI_GENERATED None]
          (initial oneFile))).1 = Return true
  ∧ files (undoChange reliable (changeIdAt reliable 1)
             (run reliable appliedDeletion (initial oneFile))).2 !! js "/t/a.ts"
    = Some (js "old").
Proof.
  refine (delete_round_trip reliable (initial oneFile) (js "/t/a.ts") (js "desc")
            AI_GENERATED None (js "old") 0
            (mkChange (changeIdAt reliable 1) (js "/t/a.ts") (js "old") [] DELETE
                      (js "desc") 3%N PENDING AI_GENERATED None)
            _ (Inv_initial oneFile) _ _ _ _ _).
  - vm_compute. reflexivity.
  - vm_compute. reflexivity.
  - vm_compute. reflexivity.
  - intros r Hr. vm_compute in Hr. by apply elem_of_nil in Hr.
  - intros j Hj. reflexivity.
Defined.

(** X8.  [undoChange] returns [true] only when it has deleted the
    existing file of an applied creation of the history; it changes neither
    the status of the record nor the collections, and a second [undoChange]
    of the same change returns [false] and leaves the files as they are. *)
Theorem undoChange_true_once (env : Env) (changeId : JsString) (s s' : State) :
  undoChange env changeId s = (Return (Some true), s') →
  (∃ i r c, find (heap s) (changeHistory s) changeId = Some (i, r)
            ∧ heap s !! r = Some c ∧ status c = APPLIED ∧ changeType c = CREATE
            ∧ is_Some (files s !! filePath c)
            ∧ files s' = delete (filePath c) (files s))
  ∧ manager s' = manager s
  ∧ ∃ s'', undoChange env changeId s' = (Return (Some false), s'')
           ∧ files s'' = files s'.
Proof.
  intros (i & r & c & Hfind & Hc & Hs & Ht & Hfile & ->)%undoChange_true_create.
  split_and!.
  - exists i, r, c. split_and!; done.
  - done.
  - rewrite (undoChange_create env _ i r c) by done. simpl.
    rewrite lookup_delete_eq. destruct (fault env (S (calls s))); eexists; split; reflexivity.
Qed.

(** X8 on the applied creation. *)
Lemma undoChange_true_once_witness :
  ∃ s'', undoChange reliable (changeIdAt reliable 0)
           (undoChange reliable (changeIdAt reliable 0)
              (run reliable appliedCreation (initial ∅))).2
         = (Return (Some false), s'')
         ∧ files s'' = ∅.
Proof.
  refine (proj2 (proj2 (undoChange_true_once reliable (changeIdAt reliable 0)
                          (run reliable appliedCreation (initial ∅)) _ _))).
  vm_compute. reflexivity.
Defined.

(** X9.  [undoChange] has no case for a replacement or an insertion: for
    such an applied change of the history it returns [false], makes no call
    of the file system and leaves the state as it is. *)
Theorem undoChange_unsupported (env : Env) (changeId : JsString) (s : State) (i : nat)
    (r : ref) (c : FileChange) :
  find (heap s) (changeHistory s) changeId = Some (i, r) →
  heap s !! r = Some c → status c = APPLIED →
  changeType c = REPLACE ∨ changeType c = INSERT →
  undoChange env changeId s = (Return (Some false), s).
Proof.
  intros Hfind Hc Hs Ht. rewrite (undoChange_found env _ _ _ _ _ Hfind Hc Hs).
  by destruct Ht as [-> | ->].
Qed.

(** X9 on the applied replacement: the file keeps the new content. *)
Lemma undoChange_unsupported_witness :
  undoChange reliable (changeIdAt reliable 1)
    (run reliable appliedReplacement (initial oneFile))
  = (Return (Some false), run reliable appliedReplacement (initial oneFile))
  ∧ files (run reliable appliedReplacement (initial oneFile)) !! js "/t/a.ts"
    = Some (js "ab").
Proof.
  split.
  - refine (undoChange_unsupported reliable (changeIdAt reliable 1)
              (run reliable appliedReplacement (initial oneFile)) 0 0
              (mkChange (changeIdAt reliable 1) (js "/t/a.ts") (js "abcdefghij") (js "ab")
                        REPLACE (js "shorten") 3%N APPLIED AI_GENERATED None) _ _ _ _).
    + vm_compute. reflexivity.
    + vm_compute. reflexivity.
    + reflexivity.
    + by left.
  - vm_compute. reflexivity.
Defined.

(** X10.  When the generator of ids never repeats an id, [undoChange] of
    a change that is not [APPLIED] (pending, failed or cancelled) returns
    [false], makes no call of the file system and leaves the state as it
    is. *)
Theorem undoChange_not_applied (env : Env) (cs : list Call)
    (workspace : gmap JsString JsString) (r : ref) (c : FileChange) :
  distinctIds env →
  heap (run env cs (initial workspace)) !! r = Some c →
  status c ≠ APPLIED →
  undoChange env (id c) (run env cs (initial workspace))
  = (Return (Some false), run env cs (initial workspace)).
Proof.
  intros Hd Hc Hs. pose proof (Ids_run env cs workspace Hd) as HIds.
  set (s := run env cs (initial workspace)) in *.
  unfold undoChange, mbind at 1, M_bind at 1, get.
  destruct (find (heap s) (changeHistory s) (id c)) as [[i r']|] eqn:Hfind; [|done].
  destruct (find_Some _ _ _ _ _ Hfind) as (_ & (c' & Hc' & Hid) & _).
  assert (r' = r) as -> by (eapply (ids_distinct env s HIds); eauto).
  unfold mbind at 1, M_bind at 1, deref. rewrite Hc. by rewrite decide_True.
Qed.

(** X10 on the creation whose application failed. *)
Lemma undoChange_not_applied_witness :
  undoChange (failingAt [4]) (changeIdAt (failingAt [4]) 0)
    (run (failingAt [4]) failedCreation (initial ∅))
  = (Return (Some false), run (failingAt [4]) failedCreation (initial ∅)).
Proof.
  refine (undoChange_not_applied (failingAt [4]) failedCreation ∅ 0
            (mkChange (changeIdAt (failingAt [4]) 0) (js "/t/a.ts") [] (js "const x=1;")
                      CREATE (js "desc") 2%N FAILED AI_GENERATED None) _ _ _).
  - apply distinctIds_failingAt.
  - vm_compute. reflexivity.
  - discriminate.
Defined.

(** **** Lines *)

Section Lines.
Context (sep : N).

Lemma split_nonempty s : split sep s ≠ [].
Proof. destruct s as [|c s]; simpl; [done|]. destruct (c =? sep)%N; [done|]. by destruct (split sep s). Qed.

Lemma split_cons_sep s : split sep (sep :: s) = [] :: split sep s.
Proof. simpl. by rewrite N.eqb_refl. Qed.

Lemma split_cons_other c s :
  c ≠ sep → split sep (c :: s) = (c :: default [] (head (split sep s))) :: tail (split sep s).
Proof.
  intros Hc. simpl. destruct (N.eqb_spec c sep); [done|].
  pose proof (split_nonempty s). by destruct (split sep s).
Qed.

(** Splitting at a separator splits the list of lines. *)
Lemma split_app_sep b l : split sep (b ++ sep :: l) = split sep b ++ split sep l.
Proof.
  induction b as [|c b IH].
  - by rewrite app_nil_l, split_cons_sep.
  - destruct (decide (c = sep)) as [->|Hc].
    + rewrite <- app_comm_cons, !split_cons_sep, IH. done.
    + rewrite <- app_comm_cons, !split_cons_other, IH by done.
      pose proof (split_nonempty b). by destruct (split sep b).
Qed.

Lemma split_no_sep l : sep ∉ l → split sep l = [l].
Proof.
  induction l as [|c l IH]; intros Hl; [done|].
  apply not_elem_of_cons in Hl as [Hc Hl].
  rewrite split_cons_other, IH by done. done.
Qed.

Lemma split_length s : length (split sep s) = S (length (filter (λ c, c = sep) s)).
Proof.
  induction s as [|c s IH]; [done|].
  destruct (decide (c = sep)) as [->|Hc].
  - rewrite split_cons_sep, filter_cons_True by done. simpl. by rewrite IH.
  - rewrite split_cons_other, filter_cons_False by done. simpl.
    rewrite <- IH. pose proof (split_nonempty s). by destruct (split sep s).
Qed.

Lemma join_cons l ls : ls ≠ [] → join [sep] (l :: ls) = l ++ [sep] ++ join [sep] ls.
Proof. by destruct ls. Qed.

Lemma join_app l1 l2 :
  l1 ≠ [] → l2 ≠ [] → join [sep] (l1 ++ l2) = join [sep] l1 ++ [sep] ++ join [sep] l2.
Proof.
  intros H1 H2. induction l1 as [|l l1 IH]; [done|].
  destruct l1 as [|l' l1].
  - simpl app at 1. by rewrite join_cons.
  - rewrite <- app_comm_cons, !join_cons by done. rewrite IH by done.
    by rewrite <- !app_assoc.
Qed.

(** Joining the lines gives the text back. *)
Lemma join_split s : join [sep] (split sep s) = s.
Proof.
  induction s as [|c s IH]; [done|].
  destruct (decide (c = sep)) as [->|Hc].
  - rewrite split_cons_sep, join_cons by apply split_nonempty. by rewrite IH.
  - rewrite split_cons_other by done. pose proof (split_nonempty s).
    destruct (split sep s) as [|l [|l' ls]]; [done| |]; simpl in *; by rewrite <- IH.
Qed.

(** Every text ends with a last line, which starts the text or follows a
    separator. *)
Lemma last_line s :
  ∃ before l, s = before ++ l ∧ (sep ∉ l) ∧ (before = [] ∨ ∃ b, before = b ++ [sep]).
Proof.
  induction s as [|c s (before & l & -> & Hl & Hb)] using rev_ind.
  - exists [], []. split_and!; [done| |by left]. apply not_elem_of_nil.
  - destruct (decide (c = sep)) as [->|Hc].
    + exists ((before ++ l) ++ [sep]), []. split_and!.
      * by rewrite app_nil_r.
      * apply not_elem_of_nil.
      * right. by eexists.
    + exists before, (l ++ [c]). split_and!; [by rewrite app_assoc | | done].
      rewrite elem_of_app, list_elem_of_singleton. intros [?|?]; done.
Qed.

End Lines.

(** **** Cancelling and reading *)

(** X11.  When the generator of ids never repeats an id, a cancellation
    is final: after [cancelChange] has returned [true], one pending change
    fewer is held, no file has changed, and the id is unknown to every
    operation on pending changes: [cancelChange] returns [false],
    [getChangePreview] returns nothing, [validateChange] reports an invalid
    change and [applyChange] throws. *)
Theorem cancelChange_final (env : Env) (cs : list Call)
    (workspace : gmap JsString JsString) (changeId : JsString) (s' : State) :
  distinctIds env →
  cancelChange changeId (run env cs (initial workspace)) = (Return true, s') →
  cancelChange changeId s' = (Return false, s')
  ∧ getChangePreview s' changeId = None
  ∧ isValid (validateChange s' changeId) = false
  ∧ (∀ dryRun, applyChange env changeId dryRun s' = (Throw (notFound changeId), s'))
  ∧ files s' = files (run env cs (initial workspace))
  ∧ S (length (pendingChanges s')) = length (pendingChanges (run env cs (initial workspace))).
Proof.
  intros Hd. pose proof (Ids_run env cs workspace Hd) as HIds.
  pose proof (Inv_run env cs _ (Inv_initial workspace)) as HI.
  set (s := run env cs (initial workspace)) in *.
  pose proof (cancelChange_runs changeId s) as Hrun.
  destruct (find (heap s) (pendingChanges s) changeId) as [[i r]|] eqn:Hfind;
    rewrite Hrun; [|done].
  intros [= <-]. clear Hrun.
  destruct (find_Some _ _ _ _ _ Hfind) as (Hi & (c & Hc & Hid) & _).
  assert (Hnone : find (alter (withStatus CANCELLED) r (heap s))
                       (delete i (pendingChanges s)) changeId = None).
  { rewrite find_alter. apply find_None. intros r' Hr' Hhas.
    pose proof (not_elem_of_delete_index _ _ _ (inv_pending_nodup s HI) Hi) as Hnot.
    unfold hasId in Hhas. destruct (heap s !! r') as [c'|] eqn:Hc'; [|done].
    injection Hhas as Hid'.
    assert (r' = r) as -> by (eapply (ids_distinct env s HIds); eauto; congruence).
    done. }
  split_and!.
  - pose proof (cancelChange_runs changeId
                  (mkState (alter (withStatus CANCELLED) r (heap s)) (changeHistory s)
                           (delete i (pendingChanges s)) (files s) (calls s))) as Hrun.
    simpl in Hrun. by rewrite Hnone in Hrun.
  - unfold getChangePreview. simpl. by rewrite Hnone.
  - unfold validateChange. simpl. by rewrite Hnone.
  - intros dryRun. by apply applyChange_not_found.
  - done.
  - simpl. rewrite length_delete by eauto.
    apply lookup_lt_Some in Hi. lia.
Qed.

(** X11 on a creation that is cancelled. *)
Lemma cancelChange_final_witness :
  cancelChange (changeIdAt reliable 0)
    (run reliable [CreateFile (js "/t/a.ts") (js "const x=1;") (js "desc") AI_GENERATED None;
                   CancelChange (changeIdAt reliable 0)] (initial ∅))
  = (Return false,
     run reliable [CreateFile (js "/t/a.ts") (js "const x=1;") (js "desc") AI_GENERATED None;
                   CancelChange (changeIdAt reliable 0)] (initial ∅)).
Proof.
  refine (proj1 (cancelChange_final reliable
                   [CreateFile (js "/t/a.ts") (js "const x=1;") (js "desc") AI_GENERATED None]
                   ∅ (changeIdAt reliable 0) _ _ _)).
  - apply distinctIds_failingAt.
  - vm_compute. reflexivity.
Defined.

(** X12.  [clearPendingChanges] returns the number of pending changes and
    cancels each of them; it leaves the other changes, the history and the
    files as they are, and makes no call of the collaborators; the batch
    that follows it finds nothing to apply. *)
Theorem clearPendingChanges_cancels_all (env : Env) (s : State) :
  ∃ s', clearPendingChanges s = (Return (length (getPendingChanges s)), s')
        ∧ getPendingChanges s' = []
        ∧ changeHistory s' = changeHistory s
        ∧ files s' = files s ∧ calls s' = calls s
        ∧ (∀ r, heap s' !! r
                = (if decide (r ∈ pendingChanges s) then withStatus CANCELLED else λ c, c)
                  <$> heap s !! r)
        ∧ ∀ dryRun, applyAllChanges env dryRun s' = (Return (mkTally 0 0), s').
Proof.
  unfold getPendingChanges, clearPendingChanges, mbind, M_bind, get, update. simpl.
  eexists. split; [reflexivity|]. simpl. split_and!; try done.
  intros r. rewrite lookup_cancel_all. case_decide; [done|]. by destruct (heap s !! r).
Qed.

(** X13.  [getChangeHistory(limit)] returns the last [limit] changes of
    the history, all of them when fewer are held, for a positive [limit];
    for the [limit] 0 it returns the whole history, not an empty list. *)
Theorem getChangeHistory_last (s : State) (limit : Z) :
  (0 ≤ limit)%Z →
  getChangeHistory s limit
  = if decide (limit = 0%Z) then changeHistory s
    else drop (length (changeHistory s) - Z.to_nat limit) (changeHistory s).
Proof.
  intros Hl. unfold getChangeHistory, slice. case_decide as H0.
  - subst. by rewrite Z.min_l by lia.
  - destruct (Z.ltb_spec (- limit) 0); [|lia]. f_equal. lia.
Qed.

(** X13 on the history of one change and the limit 0. *)
Lemma getChangeHistory_last_witness :
  getChangeHistory (run reliable appliedCreation (initial ∅)) 0 = [0].
Proof.
  refine (getChangeHistory_last (run reliable appliedCreation (initial ∅)) 0 _).
  done.
Defined.

(** X14.  [validateChange] finds a change valid exactly when it is
    pending and its path is not blank.  In particular the modification of
    a file that does not exist is valid: the existence test is not awaited,
    so its failure is never seen. *)
Theorem validateChange_valid (s : State) (changeId : JsString) :
  isValid (validateChange s changeId) = true
  ↔ ∃ i r change, find (heap s) (pendingChanges s) changeId = Some (i, r)
                  ∧ heap s !! r = Some change
                  ∧ trim (filePath change) ≠ [].
Proof.
  unfold validateChange.
  destruct (find (heap s) (pendingChanges s) changeId) as [[i r]|] eqn:Hfind.
  2: { split; [done|]. by intros (? & ? & ? & ? & _). }
  destruct (heap s !! r) as [change|] eqn:Hc.
  2: { split; [done|]. intros (? & ? & ? & [= <- <-] & ? & _). congruence. }
  unfold validateFileChange. simpl. split.
  - intros Hv. exists i, r, change. split_and!; [done|done|].
    intros Hblank. by rewrite Hblank in Hv.
  - intros (? & ? & c' & [= <- <-] & Hc' & Hpath).
    assert (c' = change) as -> by congruence.
    by destruct (trim (filePath change)).
Qed.

(** **** Texts and their lines *)

Lemma filter_nothing {A} (f : A → bool) (l : list A) :
  (∀ x, f x = false) → List.filter f l = [].
Proof. intros Hf. induction l as [|x l IH]; simpl; [done|]. by rewrite Hf. Qed.

Lemma lineAt_trailing_empty (lines : list JsString) (i : nat) :
  lineAt (lines ++ [[]]) i = lineAt lines i.
Proof.
  unfold lineAt. destruct (decide (i < length lines)) as [Hlt|Hge].
  - by rewrite lookup_app_l.
  - rewrite (lookup_ge_None_2 lines) by lia. rewrite lookup_app_r by lia.
    by destruct (i - length lines) as [|[|k]].
Qed.

Lemma filter_seq_shift (f : nat → bool) (a n : nat) :
  length (List.filter f (seq (S a) n)) = length (List.filter (λ i, f (S i)) (seq a n)).
Proof.
  revert a. induction n as [|n IH]; intros a; [done|].
  cbn [seq List.filter]. destruct (f (S a)); cbn [length]; by rewrite IH.
Qed.

(** The loop of [countChanges] on two lists of lines that are not empty:
    the first lines are compared, then the rest. *)
Lemma differing_cons (x y : JsString) (la lb : list JsString) :
  length (List.filter (λ i, negb (bool_decide (lineAt (x :: la) i = lineAt (y :: lb) i)))
                      (seq 0 (length (x :: la) `max` length (y :: lb))))
  = (if decide (x = y) then 0 else 1)
    + length (List.filter (λ i, negb (bool_decide (lineAt la i = lineAt lb i)))
                          (seq 0 (length la `max` length lb))).
Proof.
  cbn [length]. rewrite <- Nat.succ_max_distr. cbn [seq List.filter].
  change (lineAt (x :: la) 0) with x. change (lineAt (y :: lb) 0) with y.
  destruct (decide (x = y)) as [Heq|Hne].
  - rewrite bool_decide_eq_true_2 by done. cbn [negb]. by rewrite (filter_seq_shift _ 0).
  - rewrite bool_decide_eq_false_2 by done. cbn [negb length].
    by rewrite (filter_seq_shift _ 0).
Qed.

(** The loop of [countChanges] sees the lists of lines through their
    lines and the larger of their lengths. *)
Lemma differing_ext (la lb la' lb' : list JsString) :
  (∀ i, lineAt la i = lineAt la' i) → (∀ i, lineAt lb i = lineAt lb' i) →
  length la `max` length lb = length la' `max` length lb' →
  length (List.filter (λ i, negb (bool_decide (lineAt la i = lineAt lb i)))
                      (seq 0 (length la `max` length lb)))
  = length (List.filter (λ i, negb (bool_decide (lineAt la' i = lineAt lb' i)))
                        (seq 0 (length la' `max` length lb'))).
Proof.
  intros Ha Hb ->. f_equal. apply List.filter_ext. intros i. f_equal.
  apply bool_decide_ext. by rewrite Ha, Hb.
Qed.

(** A list of lines that has come to its end counts as one empty line. *)
Lemma lineAt_end i : lineAt [[]] i = lineAt [] i.
Proof. by destruct i as [|[|i]]. Qed.

(** X15.  [countChanges] compares the two texts line by line.  Two
    lines count 1 when they differ and 0 when they are equal; the count of
    two texts is the count of their first lines plus the count of what
    follows the first newline of each; when one text has no further line,
    the lines that it misses count as empty ones.  In particular two texts
    that differ only by a newline at the end count 0. *)
Theorem countChanges_lines :
  (∀ x y, LF ∉ x → LF ∉ y → countChanges x y = if decide (x = y) then 0 else 1)
  ∧ (∀ x y a b, LF ∉ x → LF ∉ y →
       countChanges (x ++ LF :: a) (y ++ LF :: b) = countChanges x y + countChanges a b)
  ∧ (∀ x y a, LF ∉ x → LF ∉ y →
       countChanges (x ++ LF :: a) y = countChanges x y + countChanges a []
       ∧ countChanges y (x ++ LF :: a) = countChanges y x + countChanges [] a)
  ∧ (∀ a, countChanges a (a ++ [LF]) = 0).
Proof.
  assert (Hone : ∀ x y, LF ∉ x → LF ∉ y →
            countChanges x y = if decide (x = y) then 0 else 1).
  { intros x y Hx Hy. unfold countChanges.
    rewrite (split_no_sep LF x), (split_no_sep LF y) by done.
    rewrite differing_cons. simpl. lia. }
  split_and!.
  - exact Hone.
  - intros x y a b Hx Hy. rewrite (Hone x y) by done. unfold countChanges.
    rewrite !split_app_sep, (split_no_sep LF x), (split_no_sep LF y) by done.
    cbn [app]. apply differing_cons.
  - intros x y a Hx Hy. rewrite (Hone x y), (Hone y x) by done. unfold countChanges.
    rewrite !split_app_sep, (split_no_sep LF x), (split_no_sep LF y) by done.
    cbn [app]. change (split LF []) with [[] : JsString].
    pose proof (split_nonempty LF a) as Hne.
    assert (1 ≤ length (split LF a)) by (destruct (split LF a); [done|simpl; lia]).
    split.
    + rewrite (differing_ext (split LF a) [[]] (split LF a) []);
        [apply differing_cons | done | apply lineAt_end | simpl; lia].
    + rewrite (differing_ext [[]] (split LF a) [] (split LF a));
        [apply differing_cons | apply lineAt_end | done | simpl; lia].
  - intros a. unfold countChanges.
    rewrite (split_app_sep LF a []). change (split LF []) with [[] : JsString].
    rewrite filter_nothing; [done|]. intros i.
    by rewrite lineAt_trailing_empty, bool_decide_eq_true_2.
Qed.

(** X16.  [getEndPosition] gives, as line, the number of newlines of the
    text and, as character, the length of what follows the last newline
    (of the whole text when it has none). *)
Theorem getEndPosition_last_line (text : JsString) :
  line (getEndPosition text) = length (filter (λ c, c = LF) text)
  ∧ ∃ before l, text = before ++ l ∧ (LF ∉ l)
                ∧ (before = [] ∨ ∃ b, before = b ++ [LF])
                ∧ character (getEndPosition text) = length l.
Proof.
  unfold getEndPosition. simpl. split.
  - rewrite split_length. lia.
  - destruct (last_line LF text) as (before & l & -> & Hl & Hb).
    exists before, l. split_and!; try done.
    destruct Hb as [->|[b ->]].
    + rewrite app_nil_l, split_no_sep by done. done.
    + rewrite <- app_assoc. change ([LF] ++ l) with (LF :: l).
      rewrite split_app_sep, (split_no_sep LF l) by done.
      rewrite length_app. simpl.
      replace (length (split LF b) + 1 - 1) with (length (split LF b)) by lia.
      unfold lineAt. by rewrite list_lookup_middle.
Qed.

(** **** Insertions *)

(** The text that an insertion writes: the original one, with the new
    content and a newline put in at the start of a line. *)
Lemma insert_merge (original new : JsString) :
  ∃ before after,
    original = before ++ after
    ∧ (before = [] ∨ ∃ b, before = b ++ [LF])
    ∧ join [LF] (take (insertLine (split LF original)) (split LF original)
                 ++ [new] ++ drop (insertLine (split LF original)) (split LF original))
      = before ++ new ++ [LF] ++ after.
Proof.
  pose proof (split_nonempty LF original) as Hne.
  pose proof (join_split LF original) as Hjoin.
  set (lines := split LF original) in *.
  destruct (insertLine lines) as [|k] eqn:Hi.
  - exists [], original. split_and!; [done|by left|].
    rewrite take_0, drop_0, app_nil_l. change ([new] ++ lines) with (new :: lines).
    by rewrite join_cons, Hjoin.
  - assert (Hlt : S k < length lines).
    { unfold insertLine in Hi.
      destruct (list_find (λ line, trim line = []) lines) as [[j x]|] eqn:Hf; [|done].
      subst j. apply list_find_Some in Hf as (Hlook & _). by eapply lookup_lt_Some. }
    assert (Htake : take (S k) lines ≠ []).
    { intros H. apply (f_equal length) in H. rewrite length_take in H. cbn [length] in H. lia. }
    assert (Hdrop : drop (S k) lines ≠ []).
    { intros H. apply (f_equal length) in H. rewrite length_drop in H. cbn [length] in H. lia. }
    exists (join [LF] (take (S k) lines) ++ [LF]), (join [LF] (drop (S k) lines)).
    split_and!.
    + rewrite <- Hjoin at 1. rewrite <- (take_drop (S k) lines) at 1.
      rewrite join_app by done. by rewrite <- app_assoc.
    + right. by eexists.
    + rewrite join_app by done. change ([new] ++ drop (S k) lines) with (new :: drop (S k) lines).
      rewrite join_cons by done. by rewrite <- !app_assoc.
Qed.

(** X17.  [applyChange] of a pending insertion into a readable file, when
    the three calls of the file system (read, create directory, write) do
    not fail, returns [true] and keeps the text of the file: the file holds
    the text that was read, with the new content (as the encoder writes it,
    a lone surrogate become U+FFFD) and a newline put in at the start of
    one of its lines. *)
Theorem applyChange_insert_keeps_original (env : Env) (changeId : JsString) (s : State)
    (i : nat) (r : ref) (change : FileChange) (content : JsString) :
  find (heap s) (pendingChanges s) changeId = Some (i, r) →
  heap s !! r = Some change →
  changeType change = INSERT →
  files s !! filePath change = Some content →
  unhindered env (calls s) 3 →
  ∃ before after s',
    applyChange env changeId false s = (Return true, s')
    ∧ toWellFormed content = before ++ after
    ∧ (before = [] ∨ ∃ b, before = b ++ [LF])
    ∧ files s'
      = <[filePath change := before ++ toWellFormed (newContent change) ++ [LF] ++ after]>
          (files s).
Proof.
  intros Hfind Hchange Htype Hfile Hq.
  pose proof (Hq 0 ltac:(lia)) as Hq0. rewrite Nat.add_0_r in Hq0.
  pose proof (Hq 1 ltac:(lia)) as Hq1. rewrite Nat.add_1_r in Hq1.
  pose proof (Hq 2 ltac:(lia)) as Hq2. replace (calls s + 2) with (S (S (calls s))) in Hq2 by lia.
  destruct (applyChange_executes env _ _ _ _ Hfind)
    as (object & success & s1 & Hobj & _ & Hexec & _ & Hrun).
  rewrite Hchange in Hobj. injection Hobj as <-.
  set (original := toWellFormed content) in *.
  destruct (insert_merge original (newContent change)) as (before & after & Horig & Hb & Hmerge).
  assert (Hres : executeChange env change s
                 = (Return true,
                    mkState (heap s) (changeHistory s) (pendingChanges s)
                      (<[filePath change :=
                           toWellFormed
                             (join [LF] (take (insertLine (split LF original)) (split LF original)
                                         ++ [newContent change]
                                         ++ drop (insertLine (split LF original))
                                                 (split LF original)))]> (files s))
                      (3 + calls s))).
  { run_fs. rewrite Htype. simpl.
    rewrite Hq0. simpl. rewrite Hfile. simpl. rewrite Hq1. simpl. by rewrite Hq2. }
  rewrite Hres in Hexec. injection Hexec as <- <-.
  exists before, after. eexists. split; [exact Hrun|]. split_and!; [done|done|].
  cbn [files applied]. f_equal.
  rewrite <- (toWellFormed_insert before after (newContent change));
    [f_equal; exact Hmerge | | done].
  rewrite <- Horig. apply toWellFormed_idemp.
Qed.

(** X17 on the workspace with one file. *)
Lemma applyChange_insert_keeps_original_witness :
  ∃ before after s',
    applyChange reliable (changeIdAt reliable 1) false
      (run reliable [CreateChange insertion] (initial oneFile))
    = (Return true, s')
    ∧ js "old" = before ++ after
    ∧ (before = [] ∨ ∃ b, before = b ++ [LF])
    ∧ files s' = <[js "/t/a.ts" := before ++ js "new" ++ [LF] ++ after]> oneFile.
Proof.
  refine (applyChange_insert_keeps_original reliable (changeIdAt reliable 1)
            (run reliable [CreateChange insertion] (initial oneFile)) 0 0
            (mkChange (changeIdAt reliable 1) (js "/t/a.ts") (js "old") (js "new") INSERT
                      (js "insert") 3%N PENDING AI_GENERATED None)
            (js "old") _ _ _ _ _).
  - vm_compute. reflexivity.
  - vm_compute. reflexivity.
  - reflexivity.
  - vm_compute. reflexivity.
  - intros j Hj. reflexivity.
Defined.

(** X18.  [applyChange] of a pending insertion into a readable file loses
    the original text when the directory cannot be created for the write of
    the merged text and the two calls that follow do not fail: the handler
    meant for a missing file writes the new content alone (as the encoder
    writes it, a lone surrogate become U+FFFD), and the call returns
    [true]. *)
Theorem applyChange_insert_fallback (env : Env) (changeId : JsString) (s : State)
    (i : nat) (r : ref) (change : FileChange) (original : JsString) :
  find (heap s) (pendingChanges s) changeId = Some (i, r) →
  heap s !! r = Some change →
  changeType change = INSERT →
  files s !! filePath change = Some original →
  fault env (calls s) = None →
  is_Some (fault env (1 + calls s)) →
  unhindered env (2 + calls s) 2 →
  ∃ s', applyChange env changeId false s = (Return true, s')
        ∧ files s' = <[filePath change := toWellFormed (newContent change)]> (files s).
Proof.
  intros Hfind Hchange Htype Hfile Hq0 [e Hq1] Hq.
  pose proof (Hq 0 ltac:(lia)) as Hq2. rewrite Nat.add_0_r in Hq2.
  pose proof (Hq 1 ltac:(lia)) as Hq3. rewrite Nat.add_1_r in Hq3.
  destruct (applyChange_executes env _ _ _ _ Hfind)
    as (object & success & s1 & Hobj & _ & Hexec & _ & Hrun).
  rewrite Hchange in Hobj. injection Hobj as <-.
  revert Hexec. run_fs. rewrite Htype. simpl. simpl in Hq1, Hq2, Hq3.
  rewrite Hq0. simpl. rewrite Hfile. simpl. rewrite Hq1. simpl. rewrite Hq2. simpl.
  rewrite Hq3. simpl.
  intros [= <- <-]. eexists. split; [exact Hrun|]. done.
Qed.

(** X18 on the workspace with one file, when call 5 fails. *)
Lemma applyChange_insert_fallback_witness :
  ∃ s', applyChange (failingAt [5]) (changeIdAt (failingAt [5]) 1) false
          (run (failingAt [5]) [CreateChange insertion] (initial oneFile))
        = (Return true, s')
        ∧ files s' = <[js "/t/a.ts" := js "new"]> oneFile.
Proof.
  refine (applyChange_insert_fallback (failingAt [5]) (changeIdAt (failingAt [5]) 1)
            (run (failingAt [5]) [CreateChange insertion] (initial oneFile)) 0 0
            (mkChange (changeIdAt (failingAt [5]) 1) (js "/t/a.ts") (js "old") (js "new")
                      INSERT (js "insert") 3%N PENDING AI_GENERATED None)
            (js "old") _ _ _ _ _ _ _).
  - vm_compute. reflexivity.
  - vm_compute. reflexivity.
  - reflexivity.
  - vm_compute. reflexivity.
  - vm_compute. reflexivity.
  - vm_compute. by eexists.
  - intros j Hj. vm_compute.
    destruct j as [|[|j]]; [reflexivity | reflexivity | lia].
Defined.

(** **** Undoing a change of a file that did not exist *)

(** The undoing of a modification or deletion that was staged with a fresh
    id and applied with success writes the recorded original content. *)
Lemma staged_undo_restores (env : Env) s c n s2 :
  Inv s → freshId s (id c) →
  changeType c = MODIFY ∨ changeType c = DELETE →
  applyChange env (id c) false (staged s c n) = (Return true, s2) →
  unhindered env (calls s2) 2 →
  files (undoChange env (id c) s2).2 !! filePath c = Some (toWellFormed (originalContent c)).
Proof.
  intros HI Hfresh Ht Happly Hq.
  destruct (staged_applied env _ _ _ _ HI Hfresh Happly)
    as (s' & i & _ & _ & _ & Hfind & Hobj).
  pose proof (Hq 0 ltac:(lia)) as Hq0. rewrite Nat.add_0_r in Hq0.
  pose proof (Hq 1 ltac:(lia)) as Hq1. rewrite Nat.add_1_r in Hq1.
  rewrite (undoChange_found env _ _ _ _ _ Hfind Hobj eq_refl).
  destruct Ht as [Ht|Ht]; simpl; rewrite Ht; run_fs; rewrite Hq0; simpl; rewrite Hq1; simpl;
    apply lookup_insert_eq.
Qed.

Lemma readableAt_missing (env : Env) s path : files s !! path = None → readableAt env s path = None.
Proof. intros Hf. unfold readableAt. rewrite Hf. by destruct (fault env (calls s)). Qed.

(** X19.  Undoing does not restore the absence of a file.  When a file
    that does not exist is modified, or deleted, the change records the
    empty text as original content; once the change is applied with success
    and undone, the two calls of the rewriting not failing, an empty file
    is at the path. *)
Theorem undo_leaves_empty_file :
  (∀ env s filePath newContent description commandType reasoning change c s1 s2,
     Inv s →
     files s !! filePath = None →
     modifyFile env filePath newContent description commandType reasoning s
     = (Return change, s1) →
     heap s1 !! change = Some c →
     freshId s (id c) →
     applyChange env (id c) false s1 = (Return true, s2) →
     unhindered env (calls s2) 2 →
     files (undoChange env (id c) s2).2 !! filePath = Some [])
  ∧ (∀ env s filePath description commandType reasoning change c s1 s2,
       Inv s →
       files s !! filePath = None →
       deleteFile env filePath description commandType reasoning s = (Return change, s1) →
       heap s1 !! change = Some c →
       freshId s (id c) →
       applyChange env (id c) false s1 = (Return true, s2) →
       unhindered env (calls s2) 2 →
       files (undoChange env (id c) s2).2 !! filePath = Some []).
Proof.
  split.
  - intros env s filePath newContent description commandType reasoning change c s1 s2
      HI Hmissing Hmodify Hc Hfresh Happly Hq.
    rewrite modifyFile_runs, (readableAt_missing env _ _ Hmissing) in Hmodify.
    injection Hmodify as <- <-.
    simpl in Hc. rewrite list_lookup_middle in Hc by done. injection Hc as <-.
    apply (staged_undo_restores env _ _ _ _ HI Hfresh (or_introl eq_refl) Happly Hq).
  - intros env s filePath description commandType reasoning change c s1 s2
      HI Hmissing Hdelete Hc Hfresh Happly Hq.
    rewrite deleteFile_runs, (readableAt_missing env _ _ Hmissing) in Hdelete.
    injection Hdelete as <- <-.
    simpl in Hc. rewrite list_lookup_middle in Hc by done. injection Hc as <-.
    apply (staged_undo_restores env _ _ _ _ HI Hfresh (or_intror eq_refl) Happly Hq).
Qed.

(** X19 on a new writer and an empty workspace: a file that does not exist
    is modified, and a file that does not exist is deleted. *)
Lemma undo_leaves_empty_file_witness :
  files (undoChange reliable (changeIdAt reliable 1)
           (run reliable appliedModification (initial ∅))).2 !! js "/t/a.ts" = Some []
  ∧ files (undoChange reliable (changeIdAt reliable 1)
             (run reliable appliedDeletion (initial ∅))).2 !! js "/t/a.ts" = Some [].
Proof.
  split.
  - refine (proj1 undo_leaves_empty_file reliable (initial ∅) (js "/t/a.ts") (js "new")
              (js "desc") AI_GENERATED None 0
              (mkChange (changeIdAt reliable 1) (js "/t/a.ts") [] (js "new") MODIFY
                        (js "desc") (now reliable 3) PENDING AI_GENERATED None)
              _ _ (Inv_initial ∅) _ _ _ _ _ _).
    + reflexivity.
    + vm_compute. reflexivity.
    + vm_compute. reflexivity.
    + intros r Hr. vm_compute in Hr. by apply elem_of_nil in Hr.
    + vm_compute. reflexivity.
    + intros j Hj. reflexivity.
  - refine (proj2 undo_leaves_empty_file reliable (initial ∅) (js "/t/a.ts")
              (js "desc") AI_GENERATED None 0
              (mkChange (changeIdAt reliable 1) (js "/t/a.ts") [] [] DELETE
                        (js "desc") (now reliable 3) PENDING AI_GENERATED None)
              _ _ (Inv_initial ∅) _ _ _ _ _ _).
    + reflexivity.
    + vm_compute. reflexivity.
    + vm_compute. reflexivity.
    + intros r Hr. vm_compute in Hr. by apply elem_of_nil in Hr.
    + vm_compute. reflexivity.
    + intros j Hj. reflexivity.
Defined.

(** **** The preview and the undoing *)

Section Records.
Context (env : Env).

Lemma withStatus_status c : withStatus (status c) c = c.
Proof. by destruct c. Qed.

Lemma sameRecords_refl s : sameRecords s s.
Proof. intros r c Hc. exists (status c). by rewrite withStatus_status. Qed.

Lemma sameRecords_trans s1 s2 s3 : sameRecords s1 s2 → sameRecords s2 s3 → sameRecords s1 s3.
Proof.
  intros H12 H23 r c Hc. destruct (H12 r c Hc) as (st & Hc2).
  destruct (H23 r _ Hc2) as (st' & Hc3). by exists st'.
Qed.

Lemma sameRecords_heap s s' : heap s' = heap s → sameRecords s s'.
Proof. intros Hh r c Hc. exists (status c). by rewrite Hh, withStatus_status. Qed.

Lemma sameRecords_alter s s' st r :
  heap s' = alter (withStatus st) r (heap s) → sameRecords s s'.
Proof.
  intros Hh r' c Hc. rewrite Hh. destruct (decide (r = r')) as [->|Hne].
  - exists st. by rewrite list_lookup_alter_eq, Hc.
  - exists (status c). by rewrite list_lookup_alter_ne, withStatus_status.
Qed.

Lemma sameRecords_staged s c n : sameRecords s (staged s c n).
Proof.
  intros r c' Hc'. exists (status c'). simpl.
  by rewrite (lookup_app_l_Some _ _ _ _ Hc'), withStatus_status.
Qed.

Lemma sameRecords_applyChange changeId dryRun s :
  sameRecords s (applyChange env changeId dryRun s).2.
Proof.
  destruct (find (heap s) (pendingChanges s) changeId) as [[i r]|] eqn:Hfind.
  - destruct dryRun.
    + erewrite applyChange_dryRun by done. apply sameRecords_refl.
    + destruct (applyChange_executes env _ _ _ _ Hfind)
        as (object & success & s' & _ & _ & _ & Hmgr & ->).
      injection Hmgr as Hheap _ _. simpl.
      destruct success; (eapply sameRecords_alter; simpl; by rewrite Hheap).
  - rewrite applyChange_not_found by done. apply sameRecords_refl.
Qed.

Lemma sameRecords_after c s : sameRecords s (after env c s).
Proof.
  destruct c; unfold after.
  - rewrite createFile_runs. apply sameRecords_staged.
  - rewrite modifyFile_runs. apply sameRecords_staged.
  - rewrite deleteFile_runs. apply sameRecords_staged.
  - destruct (createChange_runs env request s) as (c & n0 & n & _ & _ & _ & _ & _ & ->).
    apply sameRecords_staged.
  - apply sameRecords_applyChange.
  - unfold applyAllChanges, mbind, M_bind, get.
    destruct (applyEach_runs env (sameRecords s) (pendingChanges s) dryRun (mkTally 0 0) s)
      as (t' & s' & -> & _ & Hsame).
    + intros changeId s0 Hs0. eapply sameRecords_trans; [done|apply sameRecords_applyChange].
    + apply Hsame, sameRecords_refl.
  - pose proof (cancelChange_runs changeId s) as Hrun.
    destruct (find (heap s) (pendingChanges s) changeId) as [[i r]|]; rewrite Hrun.
    + by eapply sameRecords_alter.
    + apply sameRecords_refl.
  - intros r c Hc. unfold clearPendingChanges, mbind, M_bind, get, update. simpl.
    rewrite lookup_cancel_all, Hc. case_decide; simpl.
    + by exists CANCELLED.
    + exists (status c). by rewrite withStatus_status.
  - apply sameRecords_heap. by injection (external_undoChange env changeId s).
Qed.

Lemma sameRecords_run cs s : sameRecords s (run env cs s).
Proof.
  revert s. induction cs as [|c cs IH]; intros s; simpl; [apply sameRecords_refl|].
  eapply sameRecords_trans; [apply sameRecords_after | apply IH].
Qed.

End Records.

(** X20.  The preview and the undoing contradict each other.  When the
    generator of ids never repeats an id and the preview of a pending
    change says that it can be undone, [undoChange] never returns [true]
    for that change, whatever calls are made in between: the preview says
    so for every change but a creation, and [undoChange] returns [true] for
    creations only. *)
Theorem canUndo_never_undone (env : Env) (cs cs' : list Call)
    (workspace : gmap JsString JsString) (changeId : JsString) :
  distinctIds env →
  canUndo <$> getChangePreview (run env cs (initial workspace)) changeId = Some true →
  (undoChange env changeId (run env cs' (run env cs (initial workspace)))).1
  ≠ Return (Some true).
Proof.
  intros Hd Hpreview Hundo.
  pose proof (Ids_run env (cs ++ cs') workspace Hd) as HIds.
  unfold run in HIds. rewrite foldl_app in HIds. fold (run env cs (initial workspace)) in HIds.
  fold (run env cs' (run env cs (initial workspace))) in HIds.
  pose proof (sameRecords_run env cs' (run env cs (initial workspace))) as Hsame.
  set (s := run env cs (initial workspace)) in *.
  set (s' := run env cs' s) in *.
  unfold getChangePreview in Hpreview.
  destruct (find (heap s) (pendingChanges s) changeId) as [[i r]|] eqn:Hfind; [|done].
  destruct (find_Some _ _ _ _ _ Hfind) as (_ & (c & Hc & Hid) & _).
  rewrite Hc in Hpreview. simpl in Hpreview. injection Hpreview as Hcan.
  apply bool_decide_eq_true in Hcan.
  destruct (undoChange env changeId s') as [result s''] eqn:Hrun. simpl in Hundo. subst result.
  apply undoChange_true_create in Hrun as (i' & r' & c' & Hfind' & Hc' & _ & Ht & _).
  destruct (find_Some _ _ _ _ _ Hfind') as (_ & (c'' & Hc'' & Hid') & _).
  destruct (Hsame r c Hc) as (st & Hst).
  assert (r' = r) as ->.
  { eapply (ids_distinct env s' HIds); eauto. simpl. congruence. }
  rewrite Hst in Hc'. injection Hc' as <-. done.
Qed.

(** X20 on the replacement, whose preview says that it can be undone. *)
Lemma canUndo_never_undone_witness :
  (undoChange reliable (changeIdAt reliable 1)
     (run reliable [ApplyChange (changeIdAt reliable 1) false]
          (run reliable [CreateChange shortening] (initial oneFile)))).1
  ≠ Return (Some true).
Proof.
  refine (canUndo_never_undone reliable [CreateChange shortening]
            [ApplyChange (changeIdAt reliable 1) false] oneFile
            (changeIdAt reliable 1) _ _).
  - apply distinctIds_failingAt.
  - vm_compute. reflexivity.
Defined.

End FileWriterRestFacts.

(* ===================================================================== *)
(** ** Further properties of the provider router *)
(* ===================================================================== *)

Module AiServiceRestFacts.
Import Js Regex AiService AiServiceRest.

(** The type of a request matters to the parser only as an explanation or
    not. *)
Lemma parseAIResponse_type content type type' metadata :
  (type = explain ↔ type' = explain) →
  parseAIResponse content type metadata = parseAIResponse content type' metadata.
Proof.
  intros [H1 H2]. destruct type, type'; try reflexivity;
    (by specialize (H1 eq_refl)) || (by specialize (H2 eq_refl)).
Qed.

(** The outcomes with which [sendRequest] returns a response. *)
Lemma sendRequest_returns currentProvider model request o response :
  sendRequest currentProvider model request o = inr response →
  ∃ p content finish stop,
    currentProvider = Known p ∧ o = Envelope content finish stop
    ∧ response
      = parseAIResponse content (type request)
          (Some (match p with
                 | OPENAI => mkMetadata finish None
                 | CLAUDE => mkMetadata None stop
                 | _ => mkMetadata None None
                 end)).
Proof.
  unfold sendRequest. destruct currentProvider as [p|value]; [|done].
  destruct o as [content finish stop|typeError|error].
  - intros Hr. exists p, content, finish, stop. split_and!; [done|done|].
    destruct p; by injection Hr as <-.
  - by destruct p.
  - destruct p;
      cbv [handleOpenAIRequest handleClaudeRequest handleOllamaRequest
           handleLMStudioRequest handleVLLMRequest received];
      destruct error as [m|e|];
      repeat (match goal with |- context [if ?b then _ else _] => destruct b end);
      done.
Qed.

Lemma sendRequest_envelope p model request content finish stop :
  sendRequest (Known p) model request (Envelope content finish stop)
  = inr (parseAIResponse content (type request)
           (Some (match p with
                  | OPENAI => mkMetadata finish None
                  | CLAUDE => mkMetadata None stop
                  | _ => mkMetadata None None
                  end))).
Proof. by destruct p. Qed.

(** X21.  Every response that [sendRequest] returns has a confidence
    between 0.7 - 0.2, as binary floating point computes it (just under
    0.5), and 1.0, so the lower bound 0.1 of the clamp is never reached; for
    the local providers, whose envelopes carry no reason of completion, it
    is at least 0.7. *)
Theorem sendRequest_confidence_range (currentProvider : ProviderValue) (model : JsString)
    (request : EnhancedAIRequest) (o : Outcome) (response : AICodeResponse) :
  sendRequest currentProvider model request o = inr response →
  (0.7 - 0.2 <=? confidence response)%float = true
  ∧ (confidence response <=? 1.0)%float = true
  ∧ (currentProvider ≠ Known OPENAI → currentProvider ≠ Known CLAUDE →
     (0.7 <=? confidence response)%float = true).
Proof.
  intros (p & content & finish & stop & -> & -> & ->)%sendRequest_returns.
  unfold parseAIResponse.
  destruct (if bool_decide (type request = explain) then _ else _) as [code' explanation'].
  cbn [confidence]. unfold calculateConfidence. rewrite bool_decide_not.
  destruct (100 <? length content)%nat, (500 <? length content)%nat,
    (200 <? length content)%nat, (bool_decide (type request = explain)),
    (includes fence content); simpl;
    destruct p; simpl;
    repeat (match goal with
            | |- context [isText ?x ?y] => destruct (isText x y); simpl
            end);
    (split_and!; [vm_compute; reflexivity | vm_compute; reflexivity | ]);
    intros H1 H2; try done; vm_compute; reflexivity.
Qed.

(** X21 on the text of scenario D, answered by a local provider. *)
Lemma sendRequest_confidence_range_witness :
  (0.7 - 0.2 <=? confidence (parseAIResponse scenarioD write (Some (mkMetadata None None))))%float
  = true
  ∧ (confidence (parseAIResponse scenarioD write (Some (mkMetadata None None))) <=? 1.0)%float
    = true
  ∧ (Known OLLAMA ≠ Known OPENAI → Known OLLAMA ≠ Known CLAUDE →
     (0.7 <=? confidence (parseAIResponse scenarioD write (Some (mkMetadata None None))))%float
     = true).
Proof.
  refine (sendRequest_confidence_range (Known OLLAMA) (js "llama")
            (mkRequest (js "write it") None write None None None)
            (Envelope scenarioD None None)
            (parseAIResponse scenarioD write (Some (mkMetadata None None))) _).
  reflexivity.
Defined.

(** X22.  [testConnection] returns [true] exactly when the provider is
    one of the five, the transport returned a well-formed envelope, and the
    trimmed text of the reply, in lower case, contains "ok"; every failure
    gives [false], none is thrown. *)
Theorem testConnection_true_iff (toLowerCase : JsString → JsString)
    (currentProvider : ProviderValue) (model : JsString) (o : Outcome) :
  testConnection toLowerCase currentProvider model o = true
  ↔ ∃ p content finish stop,
      currentProvider = Known p ∧ o = Envelope content finish stop
      ∧ includes (js "ok") (toLowerCase (trim content)) = true.
Proof.
  unfold testConnection. split.
  - destruct (sendRequest currentProvider model testRequest o) as [error|response] eqn:Hr;
      [done|].
    apply sendRequest_returns in Hr as (p & content & finish & stop & -> & -> & ->).
    intros Hok. by exists p, content, finish, stop.
  - intros (p & content & finish & stop & -> & -> & Hok).
    by rewrite sendRequest_envelope.
Qed.

(** X23.  The legacy interface: for a given reply of the provider, the
    legacy response depends on the request only through whether its
    command is [EXPLAIN_CODE]; for such a command and a well-formed
    envelope, the content of the legacy response is the trimmed text of the
    reply. *)
Theorem sendLegacyRequest_command :
  (∀ currentProvider model request request' o,
     (l_commandType request = EXPLAIN_CODE ↔ l_commandType request' = EXPLAIN_CODE) →
     sendLegacyRequest currentProvider model request o
     = sendLegacyRequest currentProvider model request' o)
  ∧ (∀ p model request content finish stop,
       l_commandType request = EXPLAIN_CODE →
       ∃ response,
         sendLegacyRequest (Known p) model request (Envelope content finish stop)
         = inr response
         ∧ l_content response = trim content
         ∧ l_explanation response = Some (trim content)).
Proof.
  split.
  - intros currentProvider model request request' o Hc.
    unfold sendLegacyRequest.
    assert (Hs : sendRequest currentProvider model (convertLegacyRequest request) o
                 = sendRequest currentProvider model (convertLegacyRequest request') o);
      [|by rewrite Hs].
    assert (Ht : type (convertLegacyRequest request) = explain
                 ↔ type (convertLegacyRequest request') = explain).
    { unfold convertLegacyRequest. simpl. destruct Hc as [H1 H2].
      destruct (l_commandType request), (l_commandType request'); simpl;
        split; intros H; try done;
        (by specialize (H1 eq_refl)) || (by specialize (H2 eq_refl)). }
    destruct currentProvider as [p|value]; [|done].
    destruct o as [content finish stop|typeError|error].
    + rewrite !sendRequest_envelope. f_equal. by apply parseAIResponse_type.
    + by destruct p.
    + by destruct p.
  - intros p model request content finish stop Hc.
    unfold sendLegacyRequest. rewrite sendRequest_envelope.
    unfold convertLegacyRequest. rewrite Hc. simpl. eexists. split; [reflexivity|]. done.
Qed.

(** X23 on a custom command and a command that writes code. *)
Lemma sendLegacyRequest_command_witness :
  sendLegacyRequest (Known OLLAMA) (js "llama")
    (mkLegacyRequest (js "do it") None None None CUSTOM) (Envelope scenarioD None None)
  = sendLegacyRequest (Known OLLAMA) (js "llama")
      (mkLegacyRequest (js "write it") None None None WRITE_CODE)
      (Envelope scenarioD None None).
Proof.
  refine (proj1 sendLegacyRequest_command (Known OLLAMA) (js "llama")
            (mkLegacyRequest (js "do it") None None None CUSTOM)
            (mkLegacyRequest (js "write it") None None None WRITE_CODE)
            (Envelope scenarioD None None) _).
  split; discriminate.
Defined.

(** X24.  The transport client carries a credential exactly when the
    table of capabilities says that the provider requires an API key and
    a key that is not empty is configured: a required key that is missing
    raises no error, the client is built without a credential.  The
    credential is the key itself. *)
Theorem createHttpClient_credentials (currentProvider : ProviderValue)
    (apiKey : option JsString) (t : N) :
  timeout (createHttpClient currentProvider apiKey t) = t
  ∧ take 2 (headers (createHttpClient currentProvider apiKey t))
    = [(js "Content-Type", js "application/json");
       (js "User-Agent", js "Sidekick-AI-VSCode/1.0.0")]
  ∧ (drop 2 (headers (createHttpClient currentProvider apiKey t)) ≠ []
     ↔ requiresApiKey <$> getProviderCapabilities currentProvider = Some true
       ∧ is_Some (truthy apiKey))
  ∧ (∀ key, truthy apiKey = Some key →
       (currentProvider = Known OPENAI →
        drop 2 (headers (createHttpClient currentProvider apiKey t))
        = [(js "Authorization", js "Bearer " ++ key)])
       ∧ (currentProvider = Known CLAUDE →
          drop 2 (headers (createHttpClient currentProvider apiKey t))
          = [(js "x-api-key", key); (js "anthropic-version", js "2023-06-01")])).
Proof.
  unfold createHttpClient. split_and!.
  - done.
  - destruct currentProvider as [[]|value]; destruct (truthy apiKey); done.
  - destruct currentProvider as [[]|value]; destruct (truthy apiKey) as [key|]; simpl;
      (split;
       [ intros H; first [by destruct H | split; [done | by eexists]]
       | intros [Hreq [key' Hkey]]; done ]).
  - intros key ->. split; by intros ->.
Qed.

End AiServiceRestFacts.

(* ===================================================================== *)
(** ** The two parsers of a reply *)
(* ===================================================================== *)

Module ModifyFileFacts.
Import Js Regex AiService ModifyFile AiServiceFacts.




End ModifyFileFacts.
